(** * Verification of [shared/datatypes/user.go] (package [dt])

    A shallow embedding of the user datatype of the assistant backend:
    identity resolution ([GetUser]), authentication freshness
    ([IsAuthenticated]), address label matching ([GetAddress]), address
    renaming ([UpdateAddressName]) and the authorization tracker
    ([CheckActiveAuthorization]).

    Conventions of the embedding.
    - Go's [int], [int64] and [time.Duration] are 64-bit two's-complement
      integers: they are values of [Z] and every arithmetic operation of
      the source is followed by [wrap64].
    - A [time.Time] is the number of nanoseconds since the epoch; the
      wall-clock operations [Add] and [After] of the [time] package are
      exact on it.
    - A string that the code reads rune by rune (the text given to
      [GetAddress]) is the list of its code points; a string that is only
      stored, compared or passed on is a [string].
    - The process state the code reaches (environment, clock, logger,
      database) is one record, [World]; every method is a computation
      [Go A] over it, which returns a value or panics.  The handle
      [db *sqlx.DB] every method receives designates the database of the
      [World] and is not an argument of the embedding. *)

From Stdlib Require Import ZArith List String Ascii Bool Lia.
Import ListNotations.

Local Open Scope string_scope.
Local Open Scope list_scope.
Local Open Scope Z_scope.

(** ** Machine integers *)

Definition wrap64 (z : Z) : Z := (z + 2 ^ 63) mod 2 ^ 64 - 2 ^ 63.

Definition int64_min : Z := - 2 ^ 63.
Definition int64_max : Z := 2 ^ 63 - 1.

(** ** Errors *)

Inductive NumErrKind := ErrSyntax | ErrRange.

(** The package-level error values of the source are distinct pointers;
    each one is a constructor of its own.  [sql_ErrNoRows] is
    [sql.ErrNoRows]; [DriverError] is any other error coming out of
    [database/sql]; [NumError] is [*strconv.NumError]; [errors_New] is an
    error value made on the spot by [errors.New]. *)
Inductive error :=
| ErrMissingUser
| ErrMissingFlexIdType
| ErrMissingFlexID
| ErrInvalidFlexIDType
| ErrNoAddress
| sql_ErrNoRows
| DriverError (msg : string)
| NumError (fn num : string) (kind : NumErrKind)
| errors_New (msg : string).

Definition is_ErrNoRows (e : error) : bool :=
  match e with sql_ErrNoRows => true | _ => false end.

(** ** Data model *)

Definition Time := Z.
Definition AuthMethod := Z.
Definition FlexIDType := Z.
Definition rune := Z.

Definition fidtInvalid : FlexIDType := 0.
Definition fidtEmail : FlexIDType := 1.
Definition fidtPhone : FlexIDType := 2.

Record User := mkUser {
  ID : Z;
  Name : string;
  Email : string;
  LocationID : Z;
  StripeCustomerID : string;
  AuthorizationID : option Z;
  LastAuthenticated : option Time;
  LastAuthenticationMethod : AuthMethod;
  Trainer : bool
}.

(** Modelled from the spec: the [Address] struct is declared in a file of
    the package that is not part of the sources at hand; the fields are
    the ones [SaveAddress], [GetAddress] and [UpdateAddressName] name. *)
Record Address := mkAddress {
  addr_Name : string;
  addr_Line1 : string;
  addr_Line2 : string;
  addr_City : string;
  addr_State : string;
  addr_Country : string;
  addr_Zip : string;
  addr_Zip5 : string;
  addr_Zip4 : string
}.

(** *** Tables

    The columns are the ones the queries of the source read or write.
    A column scanned into a pointer or a [sql.Null*] destination is
    nullable; the others are not. *)

Record UserRow := mkUserRow {
  u_id : Z;
  u_name : string;
  u_email : string;
  u_lastauthenticated : option Time;
  u_stripecustomerid : string;
  u_authorizationid : option Z
}.

Record FlexIDRow := mkFlexIDRow {
  f_userid : Z;
  f_flexid : string;
  f_flexidtype : FlexIDType;
  f_createdat : Time
}.

Record AddressRow := mkAddressRow {
  a_id : Z;
  a_userid : Z;
  a_cardid : Z;
  a_name : string;
  a_line1 : string;
  a_line2 : string;
  a_city : string;
  a_state : string;
  a_country : string;
  a_zip : string;
  a_zip5 : string;
  a_zip4 : string
}.

Record DB := mkDB {
  users : list UserRow;
  userflexids : list FlexIDRow;
  addresses : list AddressRow
}.

(** ** The process state *)

Inductive LogLine :=
| LogAuthHoursUnset
| LogNoAddressFound (text : list rune)
| LogGetNoAddress (name : string).

(** [faults] is the behaviour of the database driver: one entry is
    consumed by each call, [Some msg] makes that call fail with
    [DriverError msg] before it touches the tables; an exhausted list is a
    healthy connection. *)
Record World := mkWorld {
  environ : list (string * string);
  clock : Time;
  logged : list LogLine;
  db : DB;
  faults : list (option string)
}.

Definition with_db (d : DB) (w : World) : World :=
  mkWorld (environ w) (clock w) (logged w) d (faults w).

Definition with_faults (fs : list (option string)) (w : World) : World :=
  mkWorld (environ w) (clock w) (logged w) (db w) fs.

Definition with_logged (ls : list LogLine) (w : World) : World :=
  mkWorld (environ w) (clock w) ls (db w) (faults w).

Inductive Outcome (A : Type) :=
| Ret (a : A)
| Panic (msg : string).
Arguments Ret {A} a.
Arguments Panic {A} msg.

Definition Go (A : Type) : Type := World -> Outcome A * World.

Definition ret {A} (a : A) : Go A := fun w => (Ret a, w).

Definition bind {A B} (m : Go A) (k : A -> Go B) : Go B :=
  fun w =>
    match m w with
    | (Ret a, w') => k a w'
    | (Panic msg, w') => (Panic msg, w')
    end.

Definition panic {A} (msg : string) : Go A := fun w => (Panic msg, w).

Notation "x <- m ;; k" := (bind m (fun x => k))
  (at level 61, m at next level, right associativity).
Notation "m ;;; k" := (bind m (fun _ => k))
  (at level 61, right associativity).

(** *** Primitives of the runtime *)

Fixpoint lookup_env (key : string) (env : list (string * string)) : string :=
  match env with
  | [] => ""
  | (k, v) :: rest => if String.eqb k key then v else lookup_env key rest
  end.

Definition os_Getenv (key : string) : Go string :=
  fun w => (Ret (lookup_env key (environ w)), w).

Definition time_Now : Go Time := fun w => (Ret (clock w), w).

Definition log_Println (l : LogLine) : Go unit :=
  fun w => (Ret tt, with_logged (logged w ++ [l]) w).

(** One round trip to the database consumes the next entry of [faults]. *)
Definition next_fault (w : World) : option string := hd None (faults w).

Definition after_call (w : World) : World := with_faults (tl (faults w)) w.

Definition driver_call : Go (option error) :=
  fun w =>
    match next_fault w with
    | None => (Ret None, after_call w)
    | Some msg => (Ret (Some (DriverError msg)), after_call w)
    end.

(** [sqlx.DB.Get]: runs a query and scans its first row; no row is
    [sql.ErrNoRows]. *)
Definition db_Get {A} (query : DB -> list A) : Go (A + error) :=
  e <- driver_call ;;
  match e with
  | Some err => ret (inr err)
  | None =>
      fun w =>
        match query (db w) with
        | [] => (Ret (inr sql_ErrNoRows), w)
        | r :: _ => (Ret (inl r), w)
        end
  end.

(** [sqlx.DB.Exec] of a statement that rewrites the tables. *)
Definition db_Exec (stmt : DB -> DB) : Go (option error) :=
  e <- driver_call ;;
  match e with
  | Some err => ret (Some err)
  | None => fun w => (Ret None, with_db (stmt (db w)) w)
  end.

(** ** Queries

    Each SQL text of the source is the function from the tables to the
    rows it selects, in the order the database returns them. *)

Section OrderBy.
Context {A : Type} (key : A -> Z).

(** [ORDER BY key DESC] as a stable insertion sort: a row goes in front of
    the first row whose key is not greater.  SQL leaves the order of rows
    with equal keys open; what is proved below of the first row holds for
    every such order. *)
Fixpoint insert_desc (x : A) (l : list A) : list A :=
  match l with
  | [] => [x]
  | y :: l' => if key y <=? key x then x :: l else y :: insert_desc x l'
  end.

Fixpoint order_by_desc (l : list A) : list A :=
  match l with
  | [] => []
  | x :: l' => insert_desc x (order_by_desc l')
  end.

(** The head of a list dominates it: every row has a key at most the key
    of the first row. *)
Definition head_greatest (l : list A) : Prop :=
  match l with
  | [] => True
  | h :: _ => forall y, In y l -> key y <= key h
  end.

End OrderBy.

(** [SELECT userid FROM userflexids WHERE flexid=$1 AND flexidtype=$2
     ORDER BY createdat DESC] *)
Definition flexid_matches (fid : string) (fidT : FlexIDType) (r : FlexIDRow) : bool :=
  String.eqb (f_flexid r) fid && (f_flexidtype r =? fidT).

Definition select_userid_by_flexid (fid : string) (fidT : FlexIDType) (d : DB) : list Z :=
  map f_userid
      (order_by_desc f_createdat (filter (flexid_matches fid fidT) (userflexids d))).

(** The struct scan of [sqlx]: the five selected columns go to the fields
    of the same name, the other fields of [var u User] keep their zero
    value. *)
Definition scan_User (r : UserRow) : User :=
  {| ID := u_id r;
     Name := u_name r;
     Email := u_email r;
     LocationID := 0;
     StripeCustomerID := u_stripecustomerid r;
     AuthorizationID := None;
     LastAuthenticated := u_lastauthenticated r;
     LastAuthenticationMethod := 0;
     Trainer := false |}.

(** [SELECT id, name, email, lastauthenticated, stripecustomerid
     FROM users WHERE id=$1] *)
Definition select_user_by_id (uid : Z) (d : DB) : list User :=
  map scan_User (filter (fun r => u_id r =? uid) (users d)).

(** [SELECT authorizationid FROM users WHERE id=$1] *)
Definition select_authorizationid (uid : Z) (d : DB) : list (option Z) :=
  map u_authorizationid (filter (fun r => u_id r =? uid) (users d)).

(** The scan into [addr := &Address{}]: seven selected columns. *)
Definition scan_Address (r : AddressRow) : Address :=
  {| addr_Name := a_name r;
     addr_Line1 := a_line1 r;
     addr_Line2 := a_line2 r;
     addr_City := a_city r;
     addr_State := a_state r;
     addr_Country := a_country r;
     addr_Zip := a_zip r;
     addr_Zip5 := "";
     addr_Zip4 := "" |}.

(** [SELECT name, line1, line2, city, state, country, zip FROM addresses
     WHERE userid=$1 AND name=$2 AND cardid=0] *)
Definition select_address_by_name (uid : Z) (name : string) (d : DB) : list Address :=
  map scan_Address
      (filter (fun r => (a_userid r =? uid) && String.eqb (a_name r) name && (a_cardid r =? 0))
              (addresses d)).

(** [SELECT name, line1, line2, city, state, country, zip FROM addresses
     WHERE id=$1] *)
Definition select_address_by_id (id : Z) (d : DB) : list Address :=
  map scan_Address (filter (fun r => a_id r =? id) (addresses d)).

(** [UPDATE addresses SET name=$1 WHERE id=$2] *)
Definition set_name (name : string) (r : AddressRow) : AddressRow :=
  mkAddressRow (a_id r) (a_userid r) (a_cardid r) name (a_line1 r) (a_line2 r)
               (a_city r) (a_state r) (a_country r) (a_zip r) (a_zip5 r) (a_zip4 r).

Definition update_address_name (name : string) (id : Z) (d : DB) : DB :=
  mkDB (users d) (userflexids d)
       (map (fun r => if a_id r =? id then set_name name r else r) (addresses d)).

(** ** Identity resolution *)

(** The tail of [GetUser] (source lines 77 to 85), reached with the
    numeric id the caller gave or the one the flexible id resolved to. *)
Definition GetUser_load (uid : Z) : Go (option User * option error) :=
  r <- db_Get (select_user_by_id uid) ;;
  match r with
  | inr err => ret (None, Some err)
  | inl u => ret (Some u, None)
  end.

Definition GetUser (uid : Z) (fid : string) (fidT : FlexIDType)
  : Go (option User * option error) :=
  if uid =? 0 then
    let fidT := fidtPhone in
    if String.eqb fid "" then ret (None, Some ErrMissingFlexID)
    else if fidT =? fidtInvalid then ret (None, Some ErrInvalidFlexIDType)
    else
      r <- db_Get (select_userid_by_flexid fid fidT) ;;
      match r with
      | inr err =>
          if is_ErrNoRows err then ret (None, Some ErrMissingUser)
          else ret (None, Some err)
      | inl uid => GetUser_load uid
      end
  else GetUser_load uid.

(** ** Address renaming and the authorization tracker *)

Definition UpdateAddressName (u : User) (id : Z) (name : string)
  : Go (option Address * option error) :=
  e <- db_Exec (update_address_name name id) ;;
  match e with
  | Some err => ret (None, Some err)
  | None =>
      r <- db_Get (select_address_by_id id) ;;
      match r with
      | inr err => ret (None, Some err)
      | inl addr => ret (Some addr, None)
      end
  end.

Definition CheckActiveAuthorization (u : User) : Go (bool * option error) :=
  r <- db_Get (select_authorizationid (ID u)) ;;
  match r with
  | inr err => ret (false, Some err)
  | inl authID =>
      match authID with
      | None => ret (false, None)
      | Some _ => ret (true, None)
      end
  end.

(** ** Authentication freshness *)

(** [strconv.Atoi] on a 64-bit platform: an optional sign, then decimal
    digits; the magnitude is accumulated as a [uint64], and the signed
    value must fit [int]. *)
Definition digit_of (c : ascii) : option Z :=
  let n := Z.of_N (N_of_ascii c) in
  if (48 <=? n) && (n <=? 57) then Some (n - 48) else None.

Fixpoint parse_digits (acc : Z) (s : string) : Z + NumErrKind :=
  match s with
  | EmptyString => inl acc
  | String c s' =>
      match digit_of c with
      | None => inr ErrSyntax
      | Some d =>
          let n := acc * 10 + d in
          if 2 ^ 64 <=? n then inr ErrRange else parse_digits n s'
      end
  end.

Definition strconv_Atoi (s : string) : Z + error :=
  let '(neg, body) :=
    match s with
    | String "-" s' => (true, s')
    | String "+" s' => (false, s')
    | _ => (false, s)
    end in
  match body with
  | EmptyString => inr (NumError "Atoi" s ErrSyntax)
  | _ =>
      match parse_digits 0 body with
      | inr k => inr (NumError "Atoi" s k)
      | inl n =>
          let v := if neg then - n else n in
          if (int64_min <=? v) && (v <=? int64_max) then inl v
          else inr (NumError "Atoi" s ErrRange)
      end
  end.

(** [time.Hour], a [Duration] in nanoseconds. *)
Definition time_Hour : Z := 3600000000000.

Definition Time_Add (t : Time) (d : Z) : Time := t + d.

(** [t.After(u)] *)
Definition Time_After (t u : Time) : bool := u <? t.

Definition IsAuthenticated (u : User) (m : AuthMethod) : Go (bool * option error) :=
  tmp <- os_Getenv "ABOT_REQUIRE_AUTH_IN_HOURS" ;;
  let compare (t : Z) : Go (bool * option error) :=
    now <- time_Now ;;
    let oldTime := Time_Add now (wrap64 (wrap64 (-1 * t) * time_Hour)) in
    match LastAuthenticated u with
    | None => panic "invalid memory address or nil pointer dereference"
    | Some lastAuthenticated =>
        let authenticated :=
          if Time_After lastAuthenticated oldTime
             && (m <=? LastAuthenticationMethod u)
          then true else false in
        ret (authenticated, None)
    end in
  if (0 <? Z.of_nat (String.length tmp)) then
    match strconv_Atoi tmp with
    | inr err => ret (false, Some err)
    | inl t =>
        if t <? 0 then
          ret (false, Some (errors_New "negative ABOT_REQUIRE_AUTH_IN_HOURS"))
        else compare t
    end
  else
    log_Println LogAuthHoursUnset ;;;
    compare 168.

(** ** Address labels *)

(** [unicode.IsSpace] *)
Definition unicode_IsSpace (r : rune) : bool :=
  if (0 <=? r) && (r <=? 255) then
    (r =? 9) || (r =? 10) || (r =? 11) || (r =? 12) || (r =? 13) || (r =? 32)
    || (r =? 133) || (r =? 160)
  else
    (r =? 5760) || ((8192 <=? r) && (r <=? 8202)) || (r =? 8232) || (r =? 8233)
    || (r =? 8239) || (r =? 8287) || (r =? 12288).

(** The code points of a literal of the source. *)
Definition runes (s : string) : list rune :=
  map (fun c => Z.of_N (N_of_ascii c)) (list_ascii_of_string s).

Fixpoint runes_eqb (a b : list rune) : bool :=
  match a, b with
  | [], [] => true
  | x :: a', y :: b' => (x =? y) && runes_eqb a' b'
  | _, _ => false
  end.

(** [strings.Fields]: the maximal runs of runes that are not white
    space, left to right; [cur] is the run being read, last rune first. *)
Fixpoint fields_from (cur : list rune) (s : list rune) : list (list rune) :=
  match s with
  | [] => match cur with [] => [] | _ => [rev cur] end
  | r :: s' =>
      if unicode_IsSpace r then
        match cur with
        | [] => fields_from [] s'
        | _ => rev cur :: fields_from [] s'
        end
      else fields_from (r :: cur) s'
  end.

Definition strings_Fields (s : list rune) : list (list rune) := fields_from [] s.

(** The lower case of ASCII, which is what [unicode.ToLower] is below
    U+0080. *)
Definition ascii_ToLower (r : rune) : rune :=
  if (65 <=? r) && (r <=? 90) then r + 32 else r.

Section AddressLabel.

(** [unicode.ToLower], the simple case mapping of the Unicode tables. *)
Variable unicode_ToLower : rune -> rune.

Definition strings_ToLower (s : list rune) : list rune := map unicode_ToLower s.

(** The body of the [switch] of [GetAddress]: the value of [name] after
    the token [w]. *)
Definition switch_label (name : string) (w : list rune) : string :=
  if runes_eqb w (runes "home") || runes_eqb w (runes "place")
     || runes_eqb w (runes "apartment") || runes_eqb w (runes "flat")
     || runes_eqb w (runes "house") || runes_eqb w (runes "condo")
  then "home"
  else if runes_eqb w (runes "work") || runes_eqb w (runes "office")
          || runes_eqb w (runes "biz") || runes_eqb w (runes "business")
  then "office"
  else name.

(** The lookup that ends [GetAddress] (source lines 188 to 200). *)
Definition GetAddress_lookup (uid : Z) (name : string)
  : Go (option Address * option error) :=
  r <- db_Get (select_address_by_name uid name) ;;
  match r with
  | inr err =>
      if is_ErrNoRows err then ret (None, Some ErrNoAddress)
      else log_Println (LogGetNoAddress name) ;;; ret (None, Some err)
  | inl addr => ret (Some addr, None)
  end.

Definition GetAddress (u : User) (text : list rune)
  : Go (option Address * option error) :=
  let name := fold_left switch_label (strings_Fields (strings_ToLower text)) "" in
  if Z.of_nat (String.length name) =? 0 then
    log_Println (LogNoAddressFound text) ;;;
    ret (None, Some ErrNoAddress)
  else GetAddress_lookup (ID u) name.

(** *** The normalisation as the specification words it

    The text is split on white space, each token is put in lower case,
    the tokens are looked up in the synonym table, and the last token of
    the scan that the table knows gives the label. *)

Definition synonym_table : list (string * string) :=
  [("home", "home"); ("place", "home"); ("apartment", "home");
   ("flat", "home"); ("house", "home"); ("condo", "home");
   ("work", "office"); ("office", "office"); ("biz", "office");
   ("business", "office")].

Definition canonical_label (token : list rune) : option string :=
  option_map snd (find (fun kv => runes_eqb token (runes (fst kv))) synonym_table).

Definition known_token (token : list rune) : bool :=
  match canonical_label token with Some _ => true | None => false end.

Definition NormalizeLabel (text : list rune) : option string :=
  let tokens := map (map unicode_ToLower) (strings_Fields text) in
  match find known_token (rev tokens) with
  | Some token => canonical_label token
  | None => None
  end.

End AddressLabel.


(** ** Reference definitions and sample states *)

(** The staleness window, in hours, that the configuration yields: 168
    when the variable is unset, its value when it reads as a non-negative
    integer, none otherwise. *)
Definition staleness_window (tmp : string) : option Z :=
  if String.eqb tmp "" then Some 168
  else match strconv_Atoi tmp with
       | inl t => if t <? 0 then None else Some t
       | inr _ => None
       end.

Definition alice_row : UserRow :=
  mkUserRow 1 "Alice" "alice@example.com" None "cus_1" (Some 77).

Definition bob_row : UserRow :=
  mkUserRow 2 "Bob" "bob@example.com" (Some 1699999000000000000) "cus_2" None.

Definition alice_home : AddressRow :=
  mkAddressRow 10 1 0 "home" "1 Main St" "Apt 2" "Springfield" "IL" "USA"
               "62701-0001" "62701" "0001".

Definition bob_office : AddressRow :=
  mkAddressRow 11 2 0 "office" "9 Elm St" "" "Shelbyville" "IL" "USA"
               "62565" "62565" "".

(** A store with two users; the flexible id ["+15550100"] is mapped as an
    e-mail to Alice, and as a phone to Alice first and to Bob later. *)
Definition sample_db : DB :=
  mkDB [alice_row; bob_row]
       [mkFlexIDRow 1 "+15550100" fidtEmail 300;
        mkFlexIDRow 1 "+15550100" fidtPhone 100;
        mkFlexIDRow 2 "+15550100" fidtPhone 200;
        mkFlexIDRow 1 "" fidtPhone 400]
       [alice_home; bob_office].

Definition sample_now : Time := 1700000000000000000.

Definition sample_world : World := mkWorld [] sample_now [] sample_db [].

Definition empty_world : World := mkWorld [] sample_now [] (mkDB [] [] []) [].

Definition alice : User := scan_User alice_row.
Definition bob : User := scan_User bob_row.

Definition AUTH_HOURS : string := "ABOT_REQUIRE_AUTH_IN_HOURS".

(** The state after the configuration was read: the notice is logged when
    the variable is unset. *)
Definition after_config (w : World) : World :=
  if String.eqb (lookup_env AUTH_HOURS (environ w)) "" then
    with_logged (logged w ++ [LogAuthHoursUnset]) w
  else w.

(** Bob as authenticated one hour before [sample_now]. *)
Definition fresh_bob : User :=
  mkUser 2 "Bob" "bob@example.com" 0 "cus_2" None
         (Some (sample_now - time_Hour)) 0 false.

(** A process configured with a window of 2562048 hours. *)
Definition long_window_world : World :=
  mkWorld [(AUTH_HOURS, "2562048")] sample_now [] sample_db [].

(** Bob as a value in memory that still carries an authorization id the
    store no longer holds. *)
Definition stale_bob : User :=
  mkUser 2 "Bob" "bob@example.com" 0 "cus_2" (Some 5) None 0 false.

(** ** The remaining methods of [User] *)

(** [GetName] and [GetEmail] satisfy the Contactable interface. *)
Definition GetName (u : User) : string := Name u.

Definition GetEmail (u : User) : string := Email u.

(** *** Sample states with a failing driver *)

(** The connection refuses the next call. *)
Definition refusing_world : World :=
  with_faults [Some "connection refused"] sample_world.

(** The connection answers one call and drops the next one. *)
Definition dropping_world : World :=
  with_faults [None; Some "connection reset"] sample_world.

(** A store where the phone ["+15550199"] is mapped to user 9, who has no
    row in [users]. *)
Definition dangling_world : World :=
  mkWorld [] sample_now []
          (mkDB [alice_row; bob_row]
                [mkFlexIDRow 9 "+15550199" fidtPhone 500]
                [alice_home; bob_office])
          [].

(** *** Relations between two states of the address table *)

(** [r'] is [r] up to the name: putting the name of [r] back gives [r]. *)
Definition same_but_name (r r' : AddressRow) : Prop :=
  set_name (a_name r) r' = r.

(** Row by row, only the name may differ, and only on the rows that carry
    [id]. *)
Definition renamed_only_at (id : Z) (before after : list AddressRow) : Prop :=
  Forall2 (fun r r' => same_but_name r r' /\ (a_id r <> id -> r' = r)) before after.

(** *** Sample configurations *)

Definition unparsable_world : World :=
  mkWorld [(AUTH_HOURS, "soon")] sample_now [] sample_db [].

Definition negative_world : World :=
  mkWorld [(AUTH_HOURS, "-1")] sample_now [] sample_db [].

(** Bob as authenticated one hour ago with a method of level 3. *)
Definition strong_bob : User :=
  mkUser 2 "Bob" "bob@example.com" 0 "cus_2" None
         (Some (sample_now - time_Hour)) 3 false.

(** ** [SaveAddress] and [DeleteSessions]

    These two methods reach state that the methods above do not: the
    sequence that numbers the rows of [addresses], and the table
    [sessions].  [Store] adds both to the [World]. *)

(** Modelled from the spec: the table [sessions] is declared outside the
    sources at hand; the code names its column [userid] only, the other
    columns are one value here. *)
Record SessionRow := mkSessionRow {
  s_userid : Z;
  s_rest : string
}.

(** [addresses_id_seq] is the last value the sequence behind
    [addresses.id] gave out. *)
Record Store := mkStore {
  world : World;
  sessions : list SessionRow;
  addresses_id_seq : Z
}.

Definition with_world (w : World) (s : Store) : Store :=
  mkStore w (sessions s) (addresses_id_seq s).

Definition GoS (A : Type) : Type := Store -> Outcome A * Store.

Definition retS {A} (a : A) : GoS A := fun s => (Ret a, s).

Definition bindS {A B} (m : GoS A) (k : A -> GoS B) : GoS B :=
  fun s =>
    match m s with
    | (Ret a, s') => k a s'
    | (Panic msg, s') => (Panic msg, s')
    end.

Notation "x <~ m ;; k" := (bindS m (fun x => k))
  (at level 61, m at next level, right associativity).

(** A method of the first part, run on the [World] of a [Store]. *)
Definition lift {A} (m : Go A) : GoS A :=
  fun s => let '(o, w') := m (world s) in (o, with_world w' s).

(** [INSERT INTO addresses (userid, cardid, name, line1, line2, city,
     state, country, zip, zip5, zip4)
     VALUES ($1, 0, $2, $3, $4, $5, $6, 'USA', $7, $8, $9)] for the row
    numbered [id]. *)
Definition new_address_row (id uid : Z) (addr : Address) : AddressRow :=
  mkAddressRow id uid 0 (addr_Name addr) (addr_Line1 addr) (addr_Line2 addr)
               (addr_City addr) (addr_State addr) "USA" (addr_Zip addr)
               (addr_Zip5 addr) (addr_Zip4 addr).

Definition insert_address (r : AddressRow) (d : DB) : DB :=
  mkDB (users d) (userflexids d) (addresses d ++ [r]).

(** [db.QueryRowx(q, ...).Scan(&id)] of the insertion with
    [RETURNING id]: the sequence gives the next number, the row goes in
    and its number comes back. *)
Definition db_insert_address_returning_id (uid : Z) (addr : Address) : GoS (Z + error) :=
  e <~ lift driver_call ;;
  match e with
  | Some err => retS (inr err)
  | None =>
      fun s =>
        let id := addresses_id_seq s + 1 in
        (Ret (inl id),
         mkStore (with_db (insert_address (new_address_row id uid addr) (db (world s)))
                          (world s))
                 (sessions s) id)
  end.

(** [addr] is the address the pointer of the source points to. *)
Definition SaveAddress (u : User) (addr : Address) : GoS (Z * option error) :=
  r <~ db_insert_address_returning_id (ID u) addr ;;
  match r with
  | inr err => retS (0, Some err)
  | inl id => retS (id, None)
  end.

(** [DELETE FROM sessions WHERE userid=$1] *)
Definition delete_sessions (uid : Z) (s : Store) : Store :=
  mkStore (world s)
          (filter (fun r => negb (s_userid r =? uid)) (sessions s))
          (addresses_id_seq s).

Definition dbS_Exec (stmt : Store -> Store) : GoS (option error) :=
  e <~ lift driver_call ;;
  match e with
  | Some err => retS (Some err)
  | None => fun s => (Ret None, stmt s)
  end.

Definition DeleteSessions (u : User) : GoS (option error) :=
  e <~ dbS_Exec (delete_sessions (ID u)) ;;
  match e with
  | Some err => if negb (is_ErrNoRows err) then retS (Some err) else retS None
  | None => retS None
  end.

(** The numbers of the address rows are distinct and were all given out
    by the sequence. *)
Definition address_ids_issued (s : Store) : Prop :=
  NoDup (map a_id (addresses (db (world s))))
  /\ forall row, In row (addresses (db (world s))) -> a_id row <= addresses_id_seq s.

(** The address [GetAddress] and [UpdateAddressName] read back for a
    saved [addr]: the country is the constant of the insertion, and the
    two parts of the zip code are not selected. *)
Definition read_back (name : string) (addr : Address) : Address :=
  mkAddress name (addr_Line1 addr) (addr_Line2 addr) (addr_City addr)
            (addr_State addr) "USA" (addr_Zip addr) "" "".

Definition sample_store : Store :=
  mkStore sample_world
          [mkSessionRow 1 "s1"; mkSessionRow 2 "s2"; mkSessionRow 1 "s3"]
          11.

Definition refusing_store : Store := with_world refusing_world sample_store.

(** An office for Alice, with a country that the insertion will not keep. *)
Definition alice_office : Address :=
  mkAddress "office" "5 Oak Ave" "Floor 3" "Springfield" "IL" "Canada"
            "62702-1234" "62702" "1234".
(** * Properties *)

(** ** The database primitives *)

Lemma db_Get_ok {A} (query : DB -> list A) (w : World) :
  next_fault w = None ->
  db_Get query w =
    (Ret (match query (db w) with
          | [] => inr sql_ErrNoRows
          | r :: _ => inl r
          end), after_call w).
Proof.
  intros H. unfold db_Get, bind, driver_call. rewrite H. cbn.
  destruct (query (db w)); reflexivity.
Qed.

Lemma db_Get_fault {A} (query : DB -> list A) (w : World) (msg : string) :
  next_fault w = Some msg ->
  db_Get query w = (Ret (inr (DriverError msg)), after_call w).
Proof.
  intros H. unfold db_Get, bind, driver_call. rewrite H. reflexivity.
Qed.

Lemma db_Get_cases {A} (query : DB -> list A) (w : World) :
  (exists msg, db_Get query w = (Ret (inr (DriverError msg)), after_call w))
  \/ (query (db w) = [] /\ db_Get query w = (Ret (inr sql_ErrNoRows), after_call w))
  \/ (exists r rest, query (db w) = r :: rest
                     /\ db_Get query w = (Ret (inl r), after_call w)).
Proof.
  destruct (next_fault w) as [msg|] eqn:F.
  - left. exists msg. now apply db_Get_fault.
  - right. rewrite (db_Get_ok query w F).
    destruct (query (db w)) as [|r rest]; [left | right; exists r, rest]; auto.
Qed.

Lemma db_Exec_ok (stmt : DB -> DB) (w : World) :
  next_fault w = None ->
  db_Exec stmt w = (Ret None, with_db (stmt (db w)) (after_call w)).
Proof.
  intros H. unfold db_Exec, bind, driver_call. rewrite H. reflexivity.
Qed.

Lemma db_Exec_fault (stmt : DB -> DB) (w : World) (msg : string) :
  next_fault w = Some msg ->
  db_Exec stmt w = (Ret (Some (DriverError msg)), after_call w).
Proof.
  intros H. unfold db_Exec, bind, driver_call. rewrite H. reflexivity.
Qed.

(** ** [ORDER BY ... DESC] puts a row of greatest key first *)

Section OrderByFacts.
Context {A : Type} (key : A -> Z).

Lemma insert_desc_In (x y : A) (l : list A) :
  In y (insert_desc key x l) <-> y = x \/ In y l.
Proof.
  induction l as [|z l IH]; cbn.
  - intuition congruence.
  - destruct (key z <=? key x); cbn; rewrite ?IH; intuition congruence.
Qed.

Lemma order_by_desc_In (y : A) (l : list A) :
  In y (order_by_desc key l) <-> In y l.
Proof.
  induction l as [|x l IH]; cbn; [tauto|].
  rewrite insert_desc_In, IH. intuition congruence.
Qed.

Lemma insert_desc_head (x : A) (l : list A) :
  head_greatest key l -> head_greatest key (insert_desc key x l).
Proof.
  destruct l as [|h l]; cbn.
  - intros _ y [->|[]]. lia.
  - intros H. destruct (key h <=? key x) eqn:E; cbn.
    + apply Z.leb_le in E. intros y [->|Hy]; [lia|].
      specialize (H y Hy). lia.
    + apply Z.leb_gt in E. intros y [->|Hy]; [reflexivity|].
      apply insert_desc_In in Hy. destruct Hy as [->|Hy]; [lia|].
      apply H. now right.
Qed.

Lemma order_by_desc_head (l : list A) : head_greatest key (order_by_desc key l).
Proof.
  induction l as [|x l IH]; cbn; [exact I|]. now apply insert_desc_head.
Qed.

Lemma order_by_desc_nil (l : list A) : order_by_desc key l = [] -> l = [].
Proof.
  destruct l as [|x l]; [reflexivity|]. intros H.
  assert (Hin : In x (order_by_desc key (x :: l))) by (apply order_by_desc_In; now left).
  rewrite H in Hin. destruct Hin.
Qed.

End OrderByFacts.

(** ** [GetUser] *)

Lemma select_user_by_id_head (uid : Z) (d : DB) (u : User) (rest : list User) :
  select_user_by_id uid d = u :: rest ->
  exists row, In row (users d) /\ u_id row = uid /\ u = scan_User row.
Proof.
  unfold select_user_by_id. intros H.
  destruct (filter (fun r => u_id r =? uid) (users d)) as [|row rows] eqn:F;
    [discriminate|].
  injection H as <- _.
  assert (Hin : In row (filter (fun r => u_id r =? uid) (users d)))
    by (rewrite F; now left).
  apply filter_In in Hin. destruct Hin as [Hin Hid].
  exists row. apply Z.eqb_eq in Hid. auto.
Qed.

Lemma select_user_by_id_absent (uid : Z) (d : DB) :
  (forall row, In row (users d) -> u_id row <> uid) ->
  select_user_by_id uid d = [].
Proof.
  intros H. unfold select_user_by_id.
  destruct (filter (fun r => u_id r =? uid) (users d)) as [|row rows] eqn:F;
    [reflexivity|].
  assert (Hin : In row (filter (fun r => u_id r =? uid) (users d)))
    by (rewrite F; now left).
  apply filter_In in Hin. destruct Hin as [Hin Hid].
  apply Z.eqb_eq in Hid. now apply H in Hin.
Qed.

(** The three ways the load of a user record ends. *)
Lemma GetUser_load_cases (uid : Z) (w : World) :
  (exists msg, next_fault w = Some msg
     /\ GetUser_load uid w = (Ret (None, Some (DriverError msg)), after_call w))
  \/ (next_fault w = None /\ select_user_by_id uid (db w) = []
      /\ GetUser_load uid w = (Ret (None, Some sql_ErrNoRows), after_call w))
  \/ (exists u rest, next_fault w = None
      /\ select_user_by_id uid (db w) = u :: rest
      /\ GetUser_load uid w = (Ret (Some u, None), after_call w)).
Proof.
  unfold GetUser_load, bind.
  destruct (next_fault w) as [msg|] eqn:F.
  - left. exists msg. rewrite (db_Get_fault _ w msg F). auto.
  - right. rewrite (db_Get_ok _ w F).
    destruct (select_user_by_id uid (db w)) as [|u rest];
      [left | right; exists u, rest]; auto.
Qed.

Lemma GetUser_nonzero (uid : Z) (fid : string) (fidT : FlexIDType) :
  uid <> 0 -> GetUser uid fid fidT = GetUser_load uid.
Proof.
  intros H. unfold GetUser. apply Z.eqb_neq in H. now rewrite H.
Qed.

(** What the flexible branch of [GetUser] does, whatever type was passed. *)
Lemma GetUser_flex (fid : string) (fidT : FlexIDType) (w : World) :
  fid <> "" ->
  GetUser 0 fid fidT w =
    match next_fault w with
    | Some msg => (Ret (None, Some (DriverError msg)), after_call w)
    | None =>
        match select_userid_by_flexid fid fidtPhone (db w) with
        | [] => (Ret (None, Some ErrMissingUser), after_call w)
        | uid :: _ => GetUser_load uid (after_call w)
        end
    end.
Proof.
  intros H. unfold GetUser. cbn.
  destruct (String.eqb_spec fid ""); [contradiction|].
  unfold bind. destruct (next_fault w) as [msg|] eqn:F.
  - now rewrite (db_Get_fault _ w msg F).
  - rewrite (db_Get_ok _ w F).
    destruct (select_userid_by_flexid fid fidtPhone (db w)); reflexivity.
Qed.

(** C2, as the code has it: for every non-empty flexible id and every
    flexible id type, member of the enumeration or not, [GetUser] with a
    zero numeric id overrides the type with phone before it checks it;
    the call is the call made with the phone type, and it never fails
    with [ErrInvalidFlexIDType]. *)
Theorem GetUser_flex_type_overridden (fid : string) (fidT : FlexIDType) (w : World) :
  fid <> "" ->
  GetUser 0 fid fidT w = GetUser 0 fid fidtPhone w
  /\ forall r w', GetUser 0 fid fidT w <> (Ret (r, Some ErrInvalidFlexIDType), w').
Proof.
  intros H. split; [reflexivity|].
  intros r w'. rewrite (GetUser_flex fid fidT w H).
  destruct (next_fault w); [discriminate|].
  destruct (select_userid_by_flexid fid fidtPhone (db w)) as [|uid l];
    [discriminate|].
  destruct (GetUser_load_cases uid (after_call w))
    as [(msg & _ & E) | [(_ & _ & E) | (u & rest & _ & _ & E)]];
    rewrite E; discriminate.
Qed.

Lemma GetUser_flex_type_overridden_witness :
  GetUser 0 "+15550100" fidtInvalid sample_world
    = GetUser 0 "+15550100" fidtPhone sample_world
  /\ forall r w', GetUser 0 "+15550100" fidtInvalid sample_world
                  <> (Ret (r, Some ErrInvalidFlexIDType), w').
Proof.
  apply (GetUser_flex_type_overridden "+15550100" fidtInvalid sample_world).
  discriminate.
Defined.

(** C2, as stated, fails: with the non-empty flexible id ["x"] and the
    zero type, which is neither e-mail nor phone, the call on an empty
    store ends with [ErrMissingUser], not with [ErrInvalidFlexIDType]. *)
Lemma GetUser_invalid_type_not_rejected :
  "x" <> ""
  /\ fidtInvalid <> fidtEmail /\ fidtInvalid <> fidtPhone
  /\ GetUser 0 "x" fidtInvalid empty_world
       = (Ret (None, Some ErrMissingUser), empty_world)
  /\ ErrMissingUser <> ErrInvalidFlexIDType.
Proof.
  repeat split; try discriminate.
Qed.

(** The flexible branch, for comparison: a flexible id without a phone
    mapping ends with [ErrMissingUser]; there [sql.ErrNoRows] is
    translated. *)
Lemma GetUser_flex_absent_mapping (fid : string) (fidT : FlexIDType) (w : World) :
  fid <> "" ->
  next_fault w = None ->
  (forall r, In r (userflexids (db w)) -> f_flexid r = fid ->
             f_flexidtype r <> fidtPhone) ->
  GetUser 0 fid fidT w = (Ret (None, Some ErrMissingUser), after_call w).
Proof.
  intros Hfid F Habs. rewrite (GetUser_flex fid fidT w Hfid), F.
  unfold select_userid_by_flexid.
  destruct (filter (flexid_matches fid fidtPhone) (userflexids (db w)))
    as [|r rows] eqn:E; [reflexivity|].
  assert (Hin : In r (filter (flexid_matches fid fidtPhone) (userflexids (db w))))
    by (rewrite E; now left).
  apply filter_In in Hin. destruct Hin as [Hin M]. unfold flexid_matches in M.
  apply andb_true_iff in M. destruct M as [M1 M2].
  apply String.eqb_eq in M1. apply Z.eqb_eq in M2.
  now destruct (Habs r Hin M1).
Qed.

(** C3, what the code does: for every non-zero numeric id that no row of
    [users] carries, on a connection that answers, [GetUser] returns the
    driver's [sql.ErrNoRows] as it received it, which is not
    [ErrMissingUser]. *)
Theorem GetUser_absent_id_returns_ErrNoRows
        (uid : Z) (fid : string) (fidT : FlexIDType) (w : World) :
  uid <> 0 ->
  next_fault w = None ->
  (forall row, In row (users (db w)) -> u_id row <> uid) ->
  GetUser uid fid fidT w = (Ret (None, Some sql_ErrNoRows), after_call w)
  /\ sql_ErrNoRows <> ErrMissingUser.
Proof.
  intros Hz F Habs. split; [|discriminate].
  rewrite (GetUser_nonzero uid fid fidT Hz).
  unfold GetUser_load, bind. rewrite (db_Get_ok _ w F).
  now rewrite (select_user_by_id_absent uid (db w) Habs).
Qed.

Lemma GetUser_absent_id_returns_ErrNoRows_witness :
  GetUser 5 "" fidtInvalid sample_world
    = (Ret (None, Some sql_ErrNoRows), after_call sample_world)
  /\ sql_ErrNoRows <> ErrMissingUser.
Proof.
  apply (GetUser_absent_id_returns_ErrNoRows 5 "" fidtInvalid sample_world).
  - lia.
  - reflexivity.
  - cbn. intros row [<-|[<-|[]]]; cbn; lia.
Defined.

(** The first row of the flexible id query is a mapping of the pair, and
    no mapping of the pair was created later. *)
Lemma select_userid_by_flexid_latest (fid : string) (fidT : FlexIDType) (d : DB) :
  (exists r0, In r0 (userflexids d) /\ f_flexid r0 = fid /\ f_flexidtype r0 = fidT) ->
  exists r rest,
    select_userid_by_flexid fid fidT d = f_userid r :: rest
    /\ In r (userflexids d) /\ f_flexid r = fid /\ f_flexidtype r = fidT
    /\ forall r', In r' (userflexids d) -> f_flexid r' = fid ->
                  f_flexidtype r' = fidT -> f_createdat r' <= f_createdat r.
Proof.
  intros (r0 & Hin0 & Hf0 & Ht0).
  unfold select_userid_by_flexid.
  set (rows := filter (flexid_matches fid fidT) (userflexids d)).
  assert (Hmem : forall x, In x rows <->
                 In x (userflexids d) /\ f_flexid x = fid /\ f_flexidtype x = fidT).
  { intros x. unfold rows. rewrite filter_In. unfold flexid_matches.
    rewrite andb_true_iff, String.eqb_eq, Z.eqb_eq. tauto. }
  pose proof (order_by_desc_head f_createdat rows) as Hhead.
  destruct (order_by_desc f_createdat rows) as [|r sorted] eqn:S.
  - apply order_by_desc_nil in S.
    assert (Hr0 : In r0 rows) by (apply Hmem; auto).
    rewrite S in Hr0. destruct Hr0.
  - assert (Hr : In r rows).
    { apply (order_by_desc_In f_createdat). rewrite S. now left. }
    apply Hmem in Hr. destruct Hr as (Hin & Hf & Ht).
    exists r, (map f_userid sorted). repeat split; auto.
    intros r' Hin' Hf' Ht'. unfold head_greatest in Hhead. apply Hhead.
    rewrite <- S. apply order_by_desc_In. apply Hmem. auto.
Qed.

(** C4, as the code has it: for every non-empty flexible id with at least
    one mapping of type phone, and every type the caller passes, [GetUser]
    with a zero numeric id, on a connection that answers, goes on to load
    the user id of a phone mapping of that flexible id with the latest
    creation time among the phone mappings of that flexible id. *)
Theorem GetUser_flex_resolves_latest_phone
        (fid : string) (fidT : FlexIDType) (w : World) :
  fid <> "" ->
  next_fault w = None ->
  (exists r0, In r0 (userflexids (db w))
              /\ f_flexid r0 = fid /\ f_flexidtype r0 = fidtPhone) ->
  exists r,
    In r (userflexids (db w)) /\ f_flexid r = fid /\ f_flexidtype r = fidtPhone
    /\ (forall r', In r' (userflexids (db w)) -> f_flexid r' = fid ->
                   f_flexidtype r' = fidtPhone -> f_createdat r' <= f_createdat r)
    /\ GetUser 0 fid fidT w = GetUser_load (f_userid r) (after_call w).
Proof.
  intros Hfid F Hex.
  destruct (select_userid_by_flexid_latest fid fidtPhone (db w) Hex)
    as (r & rest & Hsel & Hin & Hf & Ht & Hmax).
  exists r. repeat split; auto.
  rewrite (GetUser_flex fid fidT w Hfid), F, Hsel. reflexivity.
Qed.

Lemma GetUser_flex_resolves_latest_phone_witness :
  exists r,
    In r (userflexids (db sample_world)) /\ f_flexid r = "+15550100"
    /\ f_flexidtype r = fidtPhone
    /\ (forall r', In r' (userflexids (db sample_world)) ->
                   f_flexid r' = "+15550100" -> f_flexidtype r' = fidtPhone ->
                   f_createdat r' <= f_createdat r)
    /\ GetUser 0 "+15550100" fidtEmail sample_world
       = GetUser_load (f_userid r) (after_call sample_world).
Proof.
  apply (GetUser_flex_resolves_latest_phone "+15550100" fidtEmail sample_world).
  - discriminate.
  - reflexivity.
  - exists (mkFlexIDRow 2 "+15550100" fidtPhone 200). cbn. auto.
Defined.

(** C4, as stated, fails.  In the sample store the pair
    (["+15550100"], e-mail) has one mapping, to user 1, yet the call with
    that pair returns user 2, the owner of the latest phone mapping; and
    the pair ([""], phone) has a mapping, yet the call fails with
    [ErrMissingFlexID]. *)
Lemma GetUser_email_pair_resolves_phone_mapping :
  filter (flexid_matches "+15550100" fidtEmail) (userflexids sample_db)
    = [mkFlexIDRow 1 "+15550100" fidtEmail 300]
  /\ GetUser 0 "+15550100" fidtEmail sample_world
     = (Ret (Some bob, None), sample_world)
  /\ ID bob = 2
  /\ filter (flexid_matches "" fidtPhone) (userflexids sample_db)
     = [mkFlexIDRow 1 "" fidtPhone 400]
  /\ GetUser 0 "" fidtPhone sample_world
     = (Ret (None, Some ErrMissingFlexID), sample_world).
Proof.
  repeat split.
Qed.

(** C9: whenever [GetUser] returns a user, that user is the scan of a row
    of [users]: ID, Name, Email, LastAuthenticated and StripeCustomerID
    are the row's, and LastAuthenticationMethod, AuthorizationID,
    LocationID and Trainer are the zero values of their types; so the
    method is level 0, below or equal to every level counted from zero. *)
Theorem GetUser_populates_five_fields
        (uid : Z) (fid : string) (fidT : FlexIDType) (w w' : World)
        (u : User) (e : option error) :
  GetUser uid fid fidT w = (Ret (Some u, e), w') ->
  (exists row, In row (users (db w))
     /\ ID u = u_id row /\ Name u = u_name row /\ Email u = u_email row
     /\ LastAuthenticated u = u_lastauthenticated row
     /\ StripeCustomerID u = u_stripecustomerid row)
  /\ LastAuthenticationMethod u = 0
  /\ AuthorizationID u = None
  /\ LocationID u = 0
  /\ Trainer u = false
  /\ forall m : AuthMethod, 0 <= m -> LastAuthenticationMethod u <= m.
Proof.
  intros H.
  assert (Hload : exists uid' w0, db w0 = db w
                    /\ GetUser_load uid' w0 = (Ret (Some u, e), w')).
  { destruct (Z.eq_dec uid 0) as [->|Hz].
    - destruct (String.eqb_spec fid "") as [->|Hfid]; [discriminate|].
      rewrite (GetUser_flex fid fidT w Hfid) in H.
      destruct (next_fault w); [discriminate|].
      destruct (select_userid_by_flexid fid fidtPhone (db w)) as [|uid' l];
        [discriminate|].
      exists uid', (after_call w). auto.
    - rewrite (GetUser_nonzero uid fid fidT Hz) in H. exists uid, w. auto. }
  destruct Hload as (uid' & w0 & Hdb & Hl).
  destruct (GetUser_load_cases uid' w0)
    as [(msg & _ & E) | [(_ & _ & E) | (u1 & rest & _ & Hsel & E)]];
    rewrite E in Hl; try discriminate.
  injection Hl as -> _ _.
  rewrite Hdb in Hsel.
  destruct (select_user_by_id_head uid' (db w) u rest Hsel) as (row & Hin & _ & ->).
  split; [exists row; cbn; auto 10|].
  cbn. repeat split; auto.
Qed.

Lemma GetUser_populates_five_fields_witness :
  (exists row, In row (users (db sample_world))
     /\ ID alice = u_id row /\ Name alice = u_name row /\ Email alice = u_email row
     /\ LastAuthenticated alice = u_lastauthenticated row
     /\ StripeCustomerID alice = u_stripecustomerid row)
  /\ LastAuthenticationMethod alice = 0
  /\ AuthorizationID alice = None
  /\ LocationID alice = 0
  /\ Trainer alice = false
  /\ forall m : AuthMethod, 0 <= m -> LastAuthenticationMethod alice <= m.
Proof.
  apply (GetUser_populates_five_fields 1 "" fidtInvalid sample_world sample_world
                                       alice None).
  reflexivity.
Defined.

(** ** [IsAuthenticated] *)

Lemma wrap64_small (z : Z) : int64_min <= z <= int64_max -> wrap64 z = z.
Proof.
  unfold wrap64, int64_min, int64_max. intros H.
  rewrite Z.mod_small by lia. lia.
Qed.

Lemma length_zero_empty (s : string) :
  (0 <? Z.of_nat (String.length s)) = negb (String.eqb s "").
Proof.
  destruct s; reflexivity.
Qed.

(** With a window of [t] hours configured, [IsAuthenticated] reaches the
    comparison, with the cutoff the 64-bit product gives. *)
Lemma IsAuthenticated_window (u : User) (m : AuthMethod) (w : World) (t : Z) :
  staleness_window (lookup_env AUTH_HOURS (environ w)) = Some t ->
  IsAuthenticated u m w =
    match LastAuthenticated u with
    | None =>
        (Panic "invalid memory address or nil pointer dereference", after_config w)
    | Some la =>
        (Ret (Time_After la (Time_Add (clock w) (wrap64 (wrap64 (-1 * t) * time_Hour)))
              && (m <=? LastAuthenticationMethod u), None),
         after_config w)
    end.
Proof.
  unfold staleness_window, IsAuthenticated, after_config, bind, os_Getenv.
  fold AUTH_HOURS. rewrite length_zero_empty.
  destruct (String.eqb (lookup_env AUTH_HOURS (environ w)) "") eqn:E; cbn.
  - intros [= <-]. unfold time_Now.
    destruct (LastAuthenticated u) as [la|]; [|reflexivity].
    unfold ret. now destruct (_ && _).
  - destruct (strconv_Atoi (lookup_env AUTH_HOURS (environ w))) as [t'|err];
      [|discriminate].
    destruct (t' <? 0); [discriminate|]. intros [= <-]. unfold time_Now.
    destruct (LastAuthenticated u) as [la|]; [|reflexivity].
    unfold ret. now destruct (_ && _).
Qed.

Lemma staleness_window_nonneg (tmp : string) (t : Z) :
  staleness_window tmp = Some t -> 0 <= t <= int64_max.
Proof.
  unfold staleness_window. destruct (String.eqb tmp "").
  - intros [= <-]. unfold int64_max. lia.
  - destruct (strconv_Atoi tmp) as [t'|err] eqn:A; [|discriminate].
    destruct (t' <? 0) eqn:N; [discriminate|]. intros [= <-].
    apply Z.ltb_ge in N. split; [assumption|].
    unfold strconv_Atoi in A.
    destruct (match tmp with
              | String "-" s' => (true, s')
              | String "+" s' => (false, s')
              | _ => (false, tmp)
              end) as [neg body].
    destruct body; [discriminate|].
    destruct (parse_digits 0 (String a body)) as [n|k]; [|discriminate].
    destruct ((int64_min <=? (if neg then - n else n))
              && ((if neg then - n else n) <=? int64_max)) eqn:R; [|discriminate].
    injection A as <-. apply andb_true_iff in R. destruct R as [_ R].
    now apply Z.leb_le in R.
Qed.

(** The window is honoured as long as its length in nanoseconds fits a
    64-bit [Duration], that is up to 2562047 hours. *)
Lemma IsAuthenticated_fresh_iff (u : User) (m : AuthMethod) (w : World) (t : Z) :
  staleness_window (lookup_env AUTH_HOURS (environ w)) = Some t ->
  t <= 2562047 ->
  (exists w', IsAuthenticated u m w = (Ret (true, None), w'))
  <-> (exists la, LastAuthenticated u = Some la
                  /\ clock w - t * time_Hour < la
                  /\ m <= LastAuthenticationMethod u).
Proof.
  intros Hw Hle. pose proof (staleness_window_nonneg _ _ Hw) as [H0 _].
  rewrite (IsAuthenticated_window u m w t Hw).
  assert (D : wrap64 (wrap64 (-1 * t) * time_Hour) = - t * time_Hour).
  { rewrite (wrap64_small (-1 * t))
      by (unfold int64_min, int64_max; lia).
    rewrite wrap64_small by (unfold int64_min, int64_max, time_Hour; lia).
    lia. }
  rewrite D. unfold Time_After, Time_Add.
  destruct (LastAuthenticated u) as [la|].
  - split.
    + intros (w' & E). injection E as E _. apply andb_true_iff in E.
      destruct E as [E1 E2]. apply Z.ltb_lt in E1. apply Z.leb_le in E2.
      exists la. repeat split; lia.
    + intros (la' & [= <-] & H1 & H2). exists (after_config w).
      replace (clock w + - t * time_Hour <? la) with true
        by (symmetry; apply Z.ltb_lt; lia).
      replace (m <=? LastAuthenticationMethod u) with true
        by (symmetry; apply Z.leb_le; lia).
      reflexivity.
  - split.
    + intros (w' & E). discriminate.
    + intros (la & E & _). discriminate.
Qed.

(** A configuration that yields no window ends the call with an error,
    before the user is looked at. *)
Lemma IsAuthenticated_bad_config (u : User) (m : AuthMethod) (w : World) :
  staleness_window (lookup_env AUTH_HOURS (environ w)) = None ->
  exists err, IsAuthenticated u m w = (Ret (false, Some err), w).
Proof.
  unfold staleness_window, IsAuthenticated, bind, os_Getenv.
  fold AUTH_HOURS. rewrite length_zero_empty.
  destruct (String.eqb (lookup_env AUTH_HOURS (environ w)) ""); [discriminate|].
  cbn. destruct (strconv_Atoi (lookup_env AUTH_HOURS (environ w))) as [t|err].
  - destruct (t <? 0); [|discriminate]. intros _. now eexists.
  - intros _. now exists err.
Qed.

(** C1, what the code does: for every user whose LastAuthenticated is nil
    and every required method, whenever the configuration yields a window
    (the variable is unset, or holds a non-negative integer),
    [IsAuthenticated] does not return: the call of [After] through the nil
    pointer panics. *)
Theorem IsAuthenticated_nil_panics (u : User) (m : AuthMethod) (w : World) (t : Z) :
  LastAuthenticated u = None ->
  staleness_window (lookup_env AUTH_HOURS (environ w)) = Some t ->
  IsAuthenticated u m w =
    (Panic "invalid memory address or nil pointer dereference", after_config w).
Proof.
  intros Hnil Hw. rewrite (IsAuthenticated_window u m w t Hw). now rewrite Hnil.
Qed.

Lemma IsAuthenticated_nil_panics_witness :
  IsAuthenticated alice 0 sample_world =
    (Panic "invalid memory address or nil pointer dereference",
     after_config sample_world).
Proof.
  apply (IsAuthenticated_nil_panics alice 0 sample_world 168); reflexivity.
Defined.

(** C5, a failing input: the configuration yields a window of 2562048
    hours, Bob authenticated one hour ago (which is after now minus the
    window) with a method as strong as the required one, and
    [IsAuthenticated] returns false: the window in nanoseconds does not
    fit 64 bits and the product wraps to a positive duration, which puts
    the cutoff in the future. *)
Theorem IsAuthenticated_long_window_overflows :
  staleness_window (lookup_env AUTH_HOURS (environ long_window_world)) = Some 2562048
  /\ LastAuthenticated fresh_bob = Some (sample_now - time_Hour)
  /\ clock long_window_world - 2562048 * time_Hour < sample_now - time_Hour
  /\ 0 <= LastAuthenticationMethod fresh_bob
  /\ wrap64 (wrap64 (-1 * 2562048) * time_Hour) = 9223371273709551616
  /\ IsAuthenticated fresh_bob 0 long_window_world
     = (Ret (false, None), long_window_world).
Proof.
  repeat split; vm_compute; congruence.
Qed.

(** ** [GetAddress] *)

Lemma switch_label_table (name : string) (w : list rune) :
  switch_label name w =
    match canonical_label w with
    | Some label => label
    | None => name
    end.
Proof.
  unfold switch_label, canonical_label, synonym_table.
  cbn [find fst snd option_map].
  repeat match goal with
         | |- context [runes_eqb w ?k] => destruct (runes_eqb w k)
         end; reflexivity.
Qed.

Lemma canonical_label_values (w : list rune) (label : string) :
  canonical_label w = Some label -> label = "home" \/ label = "office".
Proof.
  unfold canonical_label, synonym_table.
  cbn [find fst snd option_map].
  repeat match goal with
         | |- context [runes_eqb w ?k] => destruct (runes_eqb w k)
         end; cbn; intros [= <-]; auto.
Qed.

(** The loop of [GetAddress] leaves in [name] the label of the last token
    the table knows, and its initial value when there is none. *)
Lemma fold_switch_label (tokens : list (list rune)) (name : string) :
  fold_left switch_label tokens name =
    match find known_token (rev tokens) with
    | Some token =>
        match canonical_label token with Some label => label | None => name end
    | None => name
    end.
Proof.
  induction tokens as [|w tokens IH] using rev_ind; [reflexivity|].
  rewrite fold_left_app, rev_app_distr. cbn.
  rewrite switch_label_table. unfold known_token at 1.
  destruct (canonical_label w) as [label|] eqn:C; [now rewrite C|]. apply IH.
Qed.

Section AddressLabelFacts.

Variable unicode_ToLower : rune -> rune.

(** The case mapping changes letters only: it neither makes nor removes
    white space. *)
Hypothesis ToLower_keeps_space :
  forall r, unicode_IsSpace (unicode_ToLower r) = unicode_IsSpace r.




End AddressLabelFacts.



(** The examples of the specification, and the order of the scan. *)
Example NormalizeLabel_office :
  NormalizeLabel ascii_ToLower (runes "I'm at the office now") = Some "office".
Proof. reflexivity. Qed.

Example NormalizeLabel_flat :
  NormalizeLabel ascii_ToLower (runes "at my flat") = Some "home".
Proof. reflexivity. Qed.

Example NormalizeLabel_downtown :
  NormalizeLabel ascii_ToLower (runes "downtown") = None.
Proof. reflexivity. Qed.

Example NormalizeLabel_last_wins :
  NormalizeLabel ascii_ToLower (runes "from HOME to Work") = Some "office"
  /\ NormalizeLabel ascii_ToLower (runes "from work to my house") = Some "home".
Proof. split; reflexivity. Qed.

Example GetAddress_flat :
  GetAddress ascii_ToLower alice (runes "at my FLAT") sample_world
  = (Ret (Some (scan_Address alice_home), None), sample_world).
Proof. reflexivity. Qed.

Example GetAddress_downtown :
  GetAddress ascii_ToLower alice (runes "downtown") sample_world
  = (Ret (None, Some ErrNoAddress),
     with_logged [LogNoAddressFound (runes "downtown")] sample_world).
Proof. reflexivity. Qed.

(** ** [UpdateAddressName] *)

Lemma filter_head_find {A} (p : A -> bool) (l : list A) :
  hd_error (filter p l) = find p l.
Proof.
  induction l as [|x l IH]; cbn; [reflexivity|].
  destruct (p x); [reflexivity | exact IH].
Qed.

Lemma find_map_preserving {A} (p : A -> bool) (f : A -> A) (l : list A) :
  (forall x, p (f x) = p x) ->
  find p (map f l) = option_map f (find p l).
Proof.
  intros H. induction l as [|x l IH]; cbn; [reflexivity|].
  rewrite H. destruct (p x); [reflexivity | exact IH].
Qed.

(** The row with a given id after the [UPDATE]. *)
Lemma find_after_update (name : string) (id : Z) (d : DB) :
  find (fun x => a_id x =? id) (addresses (update_address_name name id d))
  = option_map (set_name name) (find (fun x => a_id x =? id) (addresses d)).
Proof.
  unfold update_address_name. cbn [addresses].
  rewrite find_map_preserving.
  - destruct (find (fun x => a_id x =? id) (addresses d)) as [r|] eqn:F;
      [|reflexivity].
    apply find_some in F. destruct F as [_ F]. cbn beta in F. cbn [option_map].
    now rewrite F.
  - intros x. cbn beta. destruct (a_id x =? id) eqn:E; [cbn [a_id set_name] | ]; exact E.
Qed.

Lemma select_address_by_id_head (id : Z) (d : DB) :
  hd_error (select_address_by_id id d)
  = option_map scan_Address (find (fun x => a_id x =? id) (addresses d)).
Proof.
  unfold select_address_by_id. rewrite <- filter_head_find.
  now destruct (filter (fun x => a_id x =? id) (addresses d)).
Qed.

(** The successful run of [UpdateAddressName]: both round trips are
    answered and a row carries the id. *)
Lemma UpdateAddressName_ok (u : User) (id : Z) (name : string) (w : World)
      (r : AddressRow) :
  next_fault w = None ->
  next_fault (after_call w) = None ->
  find (fun x => a_id x =? id) (addresses (db w)) = Some r ->
  UpdateAddressName u id name w =
    (Ret (Some (scan_Address (set_name name r)), None),
     after_call (with_db (update_address_name name id (db w)) (after_call w))).
Proof.
  intros F1 F2 Hr. unfold UpdateAddressName, bind.
  rewrite (db_Exec_ok _ w F1).
  set (w1 := with_db (update_address_name name id (db w)) (after_call w)).
  assert (F : next_fault w1 = None) by exact F2.
  rewrite (db_Get_ok _ w1 F).
  assert (H : hd_error (select_address_by_id id (db w1))
               = Some (scan_Address (set_name name r))).
  { rewrite select_address_by_id_head. unfold w1. cbn [db with_db].
    now rewrite find_after_update, Hr. }
  destruct (select_address_by_id id (db w1)) as [|addr rest]; [discriminate|].
  now injection H as ->.
Qed.

(** C7: for every stored address X (the row [r] that carries the id) and
    every label L, when the store answers, [UpdateAddressName] returns an
    address whose label is L and whose address lines, city, state, country
    and zip are those of X; the store then holds X with the label L, and
    fetching X again gives the same address. *)
Theorem UpdateAddressName_round_trip (u : User) (id : Z) (name : string)
        (w : World) (r : AddressRow) :
  next_fault w = None ->
  next_fault (after_call w) = None ->
  find (fun x => a_id x =? id) (addresses (db w)) = Some r ->
  exists addr w',
    UpdateAddressName u id name w = (Ret (Some addr, None), w')
    /\ addr_Name addr = name
    /\ addr_Line1 addr = a_line1 r /\ addr_Line2 addr = a_line2 r
    /\ addr_City addr = a_city r /\ addr_State addr = a_state r
    /\ addr_Country addr = a_country r /\ addr_Zip addr = a_zip r
    /\ find (fun x => a_id x =? id) (addresses (db w')) = Some (set_name name r)
    /\ hd_error (select_address_by_id id (db w')) = Some addr.
Proof.
  intros F1 F2 Hr.
  eexists. eexists. split; [exact (UpdateAddressName_ok u id name w r F1 F2 Hr)|].
  cbn [addr_Name addr_Line1 addr_Line2 addr_City addr_State addr_Country addr_Zip
       scan_Address set_name a_name a_line1 a_line2 a_city a_state a_country a_zip].
  repeat split.
  - cbn [db after_call with_faults with_db]. now rewrite find_after_update, Hr.
  - rewrite select_address_by_id_head.
    cbn [db after_call with_faults with_db]. now rewrite find_after_update, Hr.
Qed.

Lemma UpdateAddressName_round_trip_witness :
  exists addr w',
    UpdateAddressName alice 10 "office" sample_world = (Ret (Some addr, None), w')
    /\ addr_Name addr = "office"
    /\ addr_Line1 addr = a_line1 alice_home /\ addr_Line2 addr = a_line2 alice_home
    /\ addr_City addr = a_city alice_home /\ addr_State addr = a_state alice_home
    /\ addr_Country addr = a_country alice_home /\ addr_Zip addr = a_zip alice_home
    /\ find (fun x => a_id x =? 10) (addresses (db w'))
       = Some (set_name "office" alice_home)
    /\ hd_error (select_address_by_id 10 (db w')) = Some addr.
Proof.
  apply (UpdateAddressName_round_trip alice 10 "office" sample_world alice_home);
    reflexivity.
Defined.

(** C10: [UpdateAddressName] does not look at its receiver: for every
    address id and label, the result and the store after the call are the
    same for any two users; and the row that carries the id is renamed
    also when its owner is not the receiver. *)
Theorem UpdateAddressName_ignores_receiver (u1 u2 : User) (id : Z) (name : string)
        (w : World) :
  UpdateAddressName u1 id name w = UpdateAddressName u2 id name w
  /\ forall r,
       next_fault w = None ->
       next_fault (after_call w) = None ->
       find (fun x => a_id x =? id) (addresses (db w)) = Some r ->
       a_userid r <> ID u1 ->
       exists addr w',
         UpdateAddressName u1 id name w = (Ret (Some addr, None), w')
         /\ addr_Name addr = name
         /\ find (fun x => a_id x =? id) (addresses (db w')) = Some (set_name name r).
Proof.
  split; [reflexivity|].
  intros r F1 F2 Hr _.
  eexists. eexists. split; [exact (UpdateAddressName_ok u1 id name w r F1 F2 Hr)|].
  split; [reflexivity|].
  cbn [db after_call with_faults with_db]. now rewrite find_after_update, Hr.
Qed.

Lemma UpdateAddressName_ignores_receiver_witness :
  a_userid bob_office <> ID alice
  /\ UpdateAddressName alice 11 "mine" sample_world
     = UpdateAddressName bob 11 "mine" sample_world
  /\ exists addr w',
       UpdateAddressName alice 11 "mine" sample_world = (Ret (Some addr, None), w')
       /\ addr_Name addr = "mine"
       /\ find (fun x => a_id x =? 11) (addresses (db w'))
          = Some (set_name "mine" bob_office).
Proof.
  assert (Hown : a_userid bob_office <> ID alice) by (cbn; lia).
  split; [exact Hown|].
  destruct (UpdateAddressName_ignores_receiver alice bob 11 "mine" sample_world)
    as [Heq Hren].
  split; [exact Heq|].
  apply (Hren bob_office); [reflexivity | reflexivity | reflexivity | exact Hown].
Defined.

(** ** [CheckActiveAuthorization] *)

Lemma select_authorizationid_head (uid : Z) (d : DB) :
  hd_error (select_authorizationid uid d)
  = option_map u_authorizationid (find (fun r => u_id r =? uid) (users d)).
Proof.
  unfold select_authorizationid. rewrite <- filter_head_find.
  now destruct (filter (fun r => u_id r =? uid) (users d)).
Qed.

(** C8: [CheckActiveAuthorization] depends on the user only through its
    id: the AuthorizationID held in memory is not read; it leaves the
    tables as they were; and it returns true exactly when the query was
    answered and the row of the user in the store holds a non-null
    authorization id. *)
Theorem CheckActiveAuthorization_reads_store (u : User) (w : World) :
  (forall u', ID u' = ID u ->
              CheckActiveAuthorization u' w = CheckActiveAuthorization u w)
  /\ db (snd (CheckActiveAuthorization u w)) = db w
  /\ ((exists e, fst (CheckActiveAuthorization u w) = Ret (true, e))
      <-> next_fault w = None
          /\ exists row n, find (fun r => u_id r =? ID u) (users (db w)) = Some row
                           /\ u_authorizationid row = Some n).
Proof.
  split; [|split].
  - intros u' E. unfold CheckActiveAuthorization. now rewrite E.
  - unfold CheckActiveAuthorization, bind.
    destruct (db_Get_cases (select_authorizationid (ID u)) w)
      as [(msg & E) | [(_ & E) | (a & rest & _ & E)]]; rewrite E;
      [reflexivity | reflexivity | now destruct a].
  - unfold CheckActiveAuthorization, bind.
    pose proof (select_authorizationid_head (ID u) (db w)) as H.
    destruct (next_fault w) as [msg|] eqn:F.
    + rewrite (db_Get_fault _ w msg F). cbn. split.
      * intros (e & E). discriminate.
      * intros (E & _). discriminate.
    + rewrite (db_Get_ok _ w F).
      destruct (select_authorizationid (ID u) (db w)) as [|a rest]; cbn in H.
      * cbn. split; [intros (e & E); discriminate|].
        intros (_ & row & n & Hrow & _). rewrite Hrow in H. discriminate.
      * destruct (find (fun r => u_id r =? ID u) (users (db w))) as [row|];
          [|discriminate].
        cbn in H. injection H as ->.
        destruct (u_authorizationid row) as [n|] eqn:A; cbn.
        -- split; [|intros _; now exists None].
           intros _. split; [reflexivity|]. now exists row, n.
        -- split; [intros (e & E); discriminate|].
           intros (_ & row' & n & [= <-] & A'). congruence.
Qed.

Lemma CheckActiveAuthorization_reads_store_witness :
  CheckActiveAuthorization stale_bob sample_world
    = CheckActiveAuthorization bob sample_world
  /\ db (snd (CheckActiveAuthorization bob sample_world)) = db sample_world
  /\ ((exists e, fst (CheckActiveAuthorization bob sample_world) = Ret (true, e))
      <-> next_fault sample_world = None
          /\ exists row n,
               find (fun r => u_id r =? ID bob) (users (db sample_world)) = Some row
               /\ u_authorizationid row = Some n).
Proof.
  destruct (CheckActiveAuthorization_reads_store bob sample_world)
    as (Hid & Hdb & Hiff).
  split; [apply Hid; reflexivity | split; assumption].
Defined.

(** The store decides, not the user value in memory: Alice's row holds a
    reference that her value in memory lacks, and Bob's row holds none
    while a stale value in memory still carries one. *)
Example CheckActiveAuthorization_fresh_read :
  AuthorizationID alice = None
  /\ CheckActiveAuthorization alice sample_world = (Ret (true, None), sample_world)
  /\ AuthorizationID stale_bob = Some 5
  /\ CheckActiveAuthorization stale_bob sample_world
     = (Ret (false, None), sample_world).
Proof. repeat split. Qed.

(** * Further properties of the methods *)

(** ** [GetUser]: errors, edge cases, what it leaves alone *)

Lemma select_user_by_id_find (uid : Z) (d : DB) :
  hd_error (select_user_by_id uid d)
  = option_map scan_User (find (fun r => u_id r =? uid) (users d)).
Proof.
  unfold select_user_by_id. rewrite <- filter_head_find.
  now destruct (filter (fun r => u_id r =? uid) (users d)).
Qed.

(** With a zero numeric id and an empty flexible id, [GetUser] fails with
    [ErrMissingFlexID] whatever the type, without a round trip to the
    database: the state is the one it started from, failing driver or
    not. *)
Theorem GetUser_empty_flexid (fidT : FlexIDType) (w : World) :
  GetUser 0 "" fidT w = (Ret (None, Some ErrMissingFlexID), w)
  /\ forall uid, uid <> 0 -> GetUser uid "" fidT w = GetUser_load uid w.
Proof.
  split; [reflexivity|]. intros uid H. now rewrite (GetUser_nonzero uid "" fidT H).
Qed.

Lemma GetUser_empty_flexid_witness :
  GetUser 0 "" fidtEmail refusing_world
    = (Ret (None, Some ErrMissingFlexID), refusing_world)
  /\ GetUser 1 "" fidtEmail sample_world = GetUser_load 1 sample_world.
Proof.
  destruct (GetUser_empty_flexid fidtEmail refusing_world) as [H _].
  destruct (GetUser_empty_flexid fidtEmail sample_world) as [_ H'].
  split; [exact H | apply H'; lia].
Defined.

(** For a non-zero numeric id that a row of [users] carries, on a
    connection that answers, [GetUser] returns the user scanned from the
    first such row, without error; its ID is the id asked for, and
    [GetName] and [GetEmail] give the name and e-mail of the row.  The
    flexible id and its type are not looked at. *)
Theorem GetUser_present_id (uid : Z) (fid : string) (fidT : FlexIDType)
        (w : World) (row : UserRow) :
  uid <> 0 ->
  next_fault w = None ->
  find (fun r => u_id r =? uid) (users (db w)) = Some row ->
  GetUser uid fid fidT w = (Ret (Some (scan_User row), None), after_call w)
  /\ ID (scan_User row) = uid
  /\ GetName (scan_User row) = u_name row
  /\ GetEmail (scan_User row) = u_email row.
Proof.
  intros Hz F Hrow. split.
  - rewrite (GetUser_nonzero uid fid fidT Hz).
    unfold GetUser_load, bind. rewrite (db_Get_ok _ w F).
    pose proof (select_user_by_id_find uid (db w)) as H. rewrite Hrow in H.
    destruct (select_user_by_id uid (db w)) as [|u rest]; [discriminate|].
    cbn in H. now injection H as ->.
  - apply find_some in Hrow. destruct Hrow as [_ E]. apply Z.eqb_eq in E.
    repeat split. exact E.
Qed.

Lemma GetUser_present_id_witness :
  GetUser 2 "ignored" fidtEmail sample_world
    = (Ret (Some (scan_User bob_row), None), after_call sample_world)
  /\ ID (scan_User bob_row) = 2
  /\ GetName (scan_User bob_row) = u_name bob_row
  /\ GetEmail (scan_User bob_row) = u_email bob_row.
Proof.
  apply (GetUser_present_id 2 "ignored" fidtEmail sample_world bob_row).
  - lia.
  - reflexivity.
  - reflexivity.
Defined.

(** [GetUser] always returns, and with exactly one of a user and an
    error; it never writes: the tables, the log, the environment and the
    clock are the ones it started from. *)
Theorem GetUser_returns_one_of_two (uid : Z) (fid : string) (fidT : FlexIDType)
        (w : World) :
  exists r w',
    GetUser uid fid fidT w = (Ret r, w')
    /\ ((exists u, r = (Some u, None)) \/ (exists e, r = (None, Some e)))
    /\ db w' = db w /\ logged w' = logged w
    /\ environ w' = environ w /\ clock w' = clock w.
Proof.
  assert (Hload : forall uid0 w0,
            exists r w',
              GetUser_load uid0 w0 = (Ret r, w')
              /\ ((exists u, r = (Some u, None)) \/ (exists e, r = (None, Some e)))
              /\ w' = after_call w0).
  { intros uid0 w0.
    destruct (GetUser_load_cases uid0 w0)
      as [(msg & _ & E) | [(_ & _ & E) | (u & rest & _ & _ & E)]];
      rewrite E; eexists; eexists; (split; [reflexivity|]); split; eauto. }
  destruct (Z.eq_dec uid 0) as [->|Hz].
  - destruct (String.eqb_spec fid "") as [->|Hfid].
    + exists (None, Some ErrMissingFlexID), w. repeat split; eauto.
    + rewrite (GetUser_flex fid fidT w Hfid).
      destruct (next_fault w) as [msg|].
      * eexists; eexists. split; [reflexivity|]. repeat split; eauto.
      * destruct (select_userid_by_flexid fid fidtPhone (db w)) as [|uid' l].
        -- eexists; eexists. split; [reflexivity|]. repeat split; eauto.
        -- destruct (Hload uid' (after_call w)) as (r & w' & E & Hr & ->).
           exists r, (after_call (after_call w)). repeat split; auto.
  - rewrite (GetUser_nonzero uid fid fidT Hz).
    destruct (Hload uid w) as (r & w' & E & Hr & ->).
    exists r, (after_call w). repeat split; auto.
Qed.

(** A phone mapping that points to a user id without a row in [users]:
    the flexible id resolves, the load finds nothing, and the caller gets
    the raw [sql.ErrNoRows] instead of [ErrMissingUser]. *)
Theorem GetUser_dangling_mapping (fid : string) (fidT : FlexIDType) (w : World) :
  fid <> "" ->
  next_fault w = None ->
  next_fault (after_call w) = None ->
  (exists r0, In r0 (userflexids (db w))
              /\ f_flexid r0 = fid /\ f_flexidtype r0 = fidtPhone) ->
  (forall r row, In r (userflexids (db w)) -> f_flexid r = fid ->
                 f_flexidtype r = fidtPhone ->
                 In row (users (db w)) -> u_id row <> f_userid r) ->
  GetUser 0 fid fidT w
  = (Ret (None, Some sql_ErrNoRows), after_call (after_call w)).
Proof.
  intros Hfid F1 F2 Hex Hdangling.
  destruct (select_userid_by_flexid_latest fid fidtPhone (db w) Hex)
    as (r & rest & Hsel & Hin & Hf & Ht & _).
  rewrite (GetUser_flex fid fidT w Hfid), F1, Hsel.
  unfold GetUser_load, bind. rewrite (db_Get_ok _ _ F2).
  rewrite select_user_by_id_absent; [reflexivity|].
  intros row Hrow. apply (Hdangling r row Hin Hf Ht). exact Hrow.
Qed.

Lemma GetUser_dangling_mapping_witness :
  GetUser 0 "+15550199" fidtPhone dangling_world
  = (Ret (None, Some sql_ErrNoRows), after_call (after_call dangling_world)).
Proof.
  apply (GetUser_dangling_mapping "+15550199" fidtPhone dangling_world).
  - discriminate.
  - reflexivity.
  - reflexivity.
  - exists (mkFlexIDRow 9 "+15550199" fidtPhone 500). cbn. auto.
  - cbn. intros r row [<-|[]] _ _ [<-|[<-|[]]]; cbn; lia.
Defined.

(** A failure of the driver on the first round trip is returned as it
    is, with no user, whether the call goes by numeric id or by a
    non-empty flexible id; a failure on the second round trip of the
    flexible path is returned the same way. *)
Theorem GetUser_driver_failure (uid : Z) (fid : string) (fidT : FlexIDType)
        (w : World) (msg : string) :
  uid <> 0 \/ fid <> "" ->
  (next_fault w = Some msg ->
   GetUser uid fid fidT w = (Ret (None, Some (DriverError msg)), after_call w))
  /\ (uid = 0 -> next_fault w = None ->
      select_userid_by_flexid fid fidtPhone (db w) <> [] ->
      next_fault (after_call w) = Some msg ->
      GetUser uid fid fidT w
      = (Ret (None, Some (DriverError msg)), after_call (after_call w))).
Proof.
  intros Hin. split.
  - intros F. destruct (Z.eq_dec uid 0) as [->|Hz].
    + destruct Hin as [Hin|Hfid]; [contradiction|].
      now rewrite (GetUser_flex fid fidT w Hfid), F.
    + rewrite (GetUser_nonzero uid fid fidT Hz).
      unfold GetUser_load, bind. now rewrite (db_Get_fault _ w msg F).
  - intros -> F1 Hsel F2. destruct Hin as [Hin|Hfid]; [contradiction|].
    rewrite (GetUser_flex fid fidT w Hfid), F1.
    destruct (select_userid_by_flexid fid fidtPhone (db w)) as [|uid' l];
      [contradiction|].
    unfold GetUser_load, bind. now rewrite (db_Get_fault _ _ msg F2).
Qed.

Lemma GetUser_driver_failure_witness :
  GetUser 1 "" fidtInvalid refusing_world
    = (Ret (None, Some (DriverError "connection refused")), after_call refusing_world)
  /\ GetUser 0 "+15550100" fidtPhone dropping_world
     = (Ret (None, Some (DriverError "connection reset")),
        after_call (after_call dropping_world)).
Proof.
  split.
  - destruct (GetUser_driver_failure 1 "" fidtInvalid refusing_world
                                     "connection refused") as [H _];
      [left; lia | apply H; reflexivity].
  - destruct (GetUser_driver_failure 0 "+15550100" fidtPhone dropping_world
                                     "connection reset") as [_ H];
      [right; discriminate |].
    apply H; [reflexivity | reflexivity | discriminate | reflexivity].
Defined.

(** ** [IsAuthenticated]: configuration errors, monotonicity, effects *)

Lemma IsAuthenticated_fresh_iff_witness :
  (exists w', IsAuthenticated fresh_bob 0 sample_world = (Ret (true, None), w'))
  <-> (exists la, LastAuthenticated fresh_bob = Some la
                  /\ clock sample_world - 168 * time_Hour < la
                  /\ 0 <= LastAuthenticationMethod fresh_bob).
Proof.
  apply (IsAuthenticated_fresh_iff fresh_bob 0 sample_world 168);
    [reflexivity | lia].
Defined.

(** When the variable is set and does not read as a non-negative
    integer, [IsAuthenticated] returns false with an error: the error of
    [strconv.Atoi] when the value does not parse, a fresh "negative"
    error when it parses below zero.  The user is not looked at (a nil
    LastAuthenticated does not panic here), nothing is logged and the
    state is unchanged. *)
Theorem IsAuthenticated_invalid_config (u : User) (m : AuthMethod) (w : World) :
  lookup_env AUTH_HOURS (environ w) <> "" ->
  (forall e, strconv_Atoi (lookup_env AUTH_HOURS (environ w)) = inr e ->
             IsAuthenticated u m w = (Ret (false, Some e), w))
  /\ (forall t, strconv_Atoi (lookup_env AUTH_HOURS (environ w)) = inl t ->
                t < 0 ->
                IsAuthenticated u m w
                = (Ret (false, Some (errors_New "negative ABOT_REQUIRE_AUTH_IN_HOURS")),
                   w)).
Proof.
  intros Hset.
  assert (L : (0 <? Z.of_nat (String.length (lookup_env AUTH_HOURS (environ w))))
              = true).
  { rewrite length_zero_empty.
    destruct (String.eqb_spec (lookup_env AUTH_HOURS (environ w)) "");
      [contradiction | reflexivity]. }
  split.
  - intros e A. unfold IsAuthenticated, bind, os_Getenv. fold AUTH_HOURS.
    rewrite L, A. reflexivity.
  - intros t A N. unfold IsAuthenticated, bind, os_Getenv. fold AUTH_HOURS.
    rewrite L, A. apply Z.ltb_lt in N. rewrite N. reflexivity.
Qed.

Lemma IsAuthenticated_invalid_config_witness :
  LastAuthenticated alice = None
  /\ IsAuthenticated alice 0 unparsable_world
     = (Ret (false, Some (NumError "Atoi" "soon" ErrSyntax)), unparsable_world)
  /\ IsAuthenticated alice 0 negative_world
     = (Ret (false, Some (errors_New "negative ABOT_REQUIRE_AUTH_IN_HOURS")),
        negative_world).
Proof.
  split; [reflexivity|]. split.
  - destruct (IsAuthenticated_invalid_config alice 0 unparsable_world) as [H _];
      [discriminate | apply H; reflexivity].
  - destruct (IsAuthenticated_invalid_config alice 0 negative_world) as [_ H];
      [discriminate | apply (H (-1)); [reflexivity | lia]].
Defined.

(** Lowering the required method never turns an authenticated user into
    an unauthenticated one: if the call returns true for [m], it returns
    true, in the same final state, for every [m'] below [m].  This holds
    for every window, the overflowing ones included. *)
Theorem IsAuthenticated_weaker_requirement (u : User) (m m' : AuthMethod)
        (w w1 : World) :
  m' <= m ->
  IsAuthenticated u m w = (Ret (true, None), w1) ->
  IsAuthenticated u m' w = (Ret (true, None), w1).
Proof.
  intros Hle H.
  destruct (staleness_window (lookup_env AUTH_HOURS (environ w))) as [t|] eqn:S.
  - rewrite (IsAuthenticated_window u m w t S) in H.
    rewrite (IsAuthenticated_window u m' w t S).
    destruct (LastAuthenticated u) as [la|]; [|discriminate].
    destruct (Time_After la _); [|discriminate].
    destruct (m <=? LastAuthenticationMethod u) eqn:E; [|discriminate].
    apply Z.leb_le in E.
    replace (m' <=? LastAuthenticationMethod u) with true
      by (symmetry; apply Z.leb_le; lia).
    exact H.
  - destruct (IsAuthenticated_bad_config u m w S) as (err & E).
    rewrite E in H. discriminate.
Qed.

Lemma IsAuthenticated_weaker_requirement_witness :
  IsAuthenticated strong_bob 1 sample_world
  = (Ret (true, None), after_config sample_world).
Proof.
  apply (IsAuthenticated_weaker_requirement strong_bob 3 1 sample_world
                                            (after_config sample_world));
    [lia | reflexivity].
Defined.

(** [IsAuthenticated] does not reach the database: in every case (a
    result, a configuration error, a panic) the final state is the
    initial one, with the notice of the default window appended to the
    log exactly when the variable is unset. *)
Theorem IsAuthenticated_final_state (u : User) (m : AuthMethod) (w : World) :
  snd (IsAuthenticated u m w) = after_config w
  /\ db (after_config w) = db w
  /\ faults (after_config w) = faults w
  /\ environ (after_config w) = environ w
  /\ clock (after_config w) = clock w
  /\ logged (after_config w)
     = logged w ++ (if String.eqb (lookup_env AUTH_HOURS (environ w)) ""
                    then [LogAuthHoursUnset] else []).
Proof.
  split.
  - destruct (staleness_window (lookup_env AUTH_HOURS (environ w))) as [t|] eqn:S.
    + rewrite (IsAuthenticated_window u m w t S).
      now destruct (LastAuthenticated u).
    + destruct (IsAuthenticated_bad_config u m w S) as (err & E). rewrite E.
      unfold after_config. unfold staleness_window in S.
      destruct (String.eqb (lookup_env AUTH_HOURS (environ w)) "");
        [discriminate | reflexivity].
  - unfold after_config.
    destruct (String.eqb (lookup_env AUTH_HOURS (environ w)) ""); cbn;
      repeat split; auto using app_nil_r.
Qed.

(** ** [GetAddress]: what it can return, how it fails *)

Lemma fold_switch_label_values (tokens : list (list rune)) :
  let name := fold_left switch_label tokens "" in
  name = "" \/ name = "home" \/ name = "office".
Proof.
  cbn zeta. rewrite fold_switch_label.
  destruct (find known_token (rev tokens)) as [token|]; [|now left].
  destruct (canonical_label token) as [label|] eqn:C; [|now left].
  right. exact (canonical_label_values token label C).
Qed.

Lemma select_address_by_name_In (uid : Z) (name : string) (d : DB) (addr : Address) :
  In addr (select_address_by_name uid name d) ->
  exists row, In row (addresses d) /\ a_userid row = uid /\ a_name row = name
              /\ a_cardid row = 0 /\ addr = scan_Address row.
Proof.
  unfold select_address_by_name. intros H.
  apply in_map_iff in H. destruct H as (row & <- & H).
  apply filter_In in H. destruct H as [Hin H].
  apply andb_true_iff in H. destruct H as [H H3].
  apply andb_true_iff in H. destruct H as [H1 H2].
  apply Z.eqb_eq in H1. apply String.eqb_eq in H2. apply Z.eqb_eq in H3.
  exists row. auto.
Qed.

(** The three ways the lookup of a label ends. *)
Lemma GetAddress_lookup_cases (uid : Z) (name : string) (w : World) :
  (exists msg, next_fault w = Some msg
     /\ GetAddress_lookup uid name w
        = (Ret (None, Some (DriverError msg)),
           with_logged (logged w ++ [LogGetNoAddress name]) (after_call w)))
  \/ (next_fault w = None /\ select_address_by_name uid name (db w) = []
      /\ GetAddress_lookup uid name w = (Ret (None, Some ErrNoAddress), after_call w))
  \/ (exists addr rest, next_fault w = None
      /\ select_address_by_name uid name (db w) = addr :: rest
      /\ GetAddress_lookup uid name w = (Ret (Some addr, None), after_call w)).
Proof.
  unfold GetAddress_lookup, bind.
  destruct (next_fault w) as [msg|] eqn:F.
  - left. exists msg. rewrite (db_Get_fault _ w msg F). auto.
  - right. rewrite (db_Get_ok _ w F).
    destruct (select_address_by_name uid name (db w)) as [|addr rest];
      [left | right; exists addr, rest]; auto.
Qed.

(** Whatever the text and the case mapping, an address that [GetAddress]
    returns comes with no error and is the scan of a row of the store
    that belongs to the receiver, is not tied to a card, and is named
    "home" or "office": no other address can be reached through it. *)
Theorem GetAddress_returns_own_direct_address
        (lower : rune -> rune) (u : User) (text : list rune)
        (w w' : World) (addr : Address) (e : option error) :
  GetAddress lower u text w = (Ret (Some addr, e), w') ->
  e = None
  /\ exists row,
       In row (addresses (db w)) /\ a_userid row = ID u /\ a_cardid row = 0
       /\ (a_name row = "home" \/ a_name row = "office")
       /\ addr = scan_Address row.
Proof.
  unfold GetAddress.
  pose proof (fold_switch_label_values
                (strings_Fields (strings_ToLower lower text))) as V.
  cbn zeta in V.
  set (name := fold_left switch_label
                         (strings_Fields (strings_ToLower lower text)) "") in *.
  assert (Hcase : name = "" \/ (name <> "" /\ (name = "home" \/ name = "office"))).
  { destruct V as [->|[->| ->]]; [left | right | right]; auto;
      split; auto; discriminate. }
  destruct Hcase as [-> | [Hne Hname]]; [discriminate|].
  replace (Z.of_nat (String.length name) =? 0) with false
    by (destruct Hname as [-> | ->]; reflexivity).
  intros H.
  destruct (GetAddress_lookup_cases (ID u) name w)
    as [(msg & _ & E) | [(_ & _ & E) | (a & rest & _ & Hsel & E)]];
    rewrite E in H; try discriminate.
  injection H as -> <- _. split; [reflexivity|].
  assert (Hin : In addr (select_address_by_name (ID u) name (db w)))
    by (rewrite Hsel; now left).
  destruct (select_address_by_name_In _ _ _ _ Hin) as (row & Hr & Hu & Hn & Hc & ->).
  exists row. repeat split; auto. rewrite Hn. exact Hname.
Qed.

Lemma GetAddress_returns_own_direct_address_witness :
  @None error = None
  /\ exists row,
       In row (addresses (db sample_world)) /\ a_userid row = ID alice
       /\ a_cardid row = 0
       /\ (a_name row = "home" \/ a_name row = "office")
       /\ scan_Address alice_home = scan_Address row.
Proof.
  apply (GetAddress_returns_own_direct_address
           ascii_ToLower alice (runes "my House") sample_world sample_world
           (scan_Address alice_home) None).
  reflexivity.
Defined.

(** When the loop of [GetAddress] has found a label: a failure of the
    driver is logged and returned as it is; an answer without a row (the
    user has no direct address of that name) is [ErrNoAddress], with
    nothing logged.  Either way the tables are untouched. *)
Theorem GetAddress_lookup_failures
        (lower : rune -> rune) (u : User) (text : list rune) (w : World) :
  let name := fold_left switch_label (strings_Fields (strings_ToLower lower text)) "" in
  name <> "" ->
  (forall msg, next_fault w = Some msg ->
     GetAddress lower u text w
     = (Ret (None, Some (DriverError msg)),
        with_logged (logged w ++ [LogGetNoAddress name]) (after_call w)))
  /\ (next_fault w = None ->
      (forall row, In row (addresses (db w)) -> a_userid row = ID u ->
                   a_cardid row = 0 -> a_name row <> name) ->
      GetAddress lower u text w = (Ret (None, Some ErrNoAddress), after_call w)).
Proof.
  intros name Hne. unfold GetAddress. fold name.
  replace (Z.of_nat (String.length name) =? 0) with false
    by (destruct name; [contradiction | reflexivity]).
  split.
  - intros msg F. unfold GetAddress_lookup, bind.
    now rewrite (db_Get_fault _ w msg F).
  - intros F Habs. unfold GetAddress_lookup, bind. rewrite (db_Get_ok _ w F).
    destruct (select_address_by_name (ID u) name (db w)) as [|addr rest] eqn:S;
      [reflexivity|].
    assert (Hin : In addr (select_address_by_name (ID u) name (db w)))
      by (rewrite S; now left).
    destruct (select_address_by_name_In _ _ _ _ Hin) as (row & Hr & Hu & Hn & Hc & _).
    now destruct (Habs row Hr Hu Hc).
Qed.

Lemma GetAddress_lookup_failures_witness :
  GetAddress ascii_ToLower alice (runes "to the office") refusing_world
    = (Ret (None, Some (DriverError "connection refused")),
       with_logged (logged refusing_world ++ [LogGetNoAddress "office"])
                   (after_call refusing_world))
  /\ GetAddress ascii_ToLower alice (runes "to the office") sample_world
     = (Ret (None, Some ErrNoAddress), after_call sample_world).
Proof.
  split.
  - destruct (GetAddress_lookup_failures ascii_ToLower alice (runes "to the office")
                                         refusing_world) as [H _];
      [discriminate | apply H; reflexivity].
  - destruct (GetAddress_lookup_failures ascii_ToLower alice (runes "to the office")
                                         sample_world) as [_ H];
      [discriminate |].
    apply H; [reflexivity|].
    cbn. intros row [<-|[<-|[]]]; cbn; intros; try discriminate; lia.
Defined.

(** ** [UpdateAddressName]: missing ids, frame, failures, composition *)

Lemma map_id_on {A} (f : A -> A) (l : list A) :
  (forall x, In x l -> f x = x) -> map f l = l.
Proof.
  induction l as [|x l IH]; cbn; intros H; [reflexivity|].
  rewrite H by now left. f_equal. apply IH. intros y Hy. apply H. now right.
Qed.

Lemma update_address_name_absent (name : string) (id : Z) (d : DB) :
  (forall row, In row (addresses d) -> a_id row <> id) ->
  update_address_name name id d = d.
Proof.
  intros H. destruct d as [us fs ads]. unfold update_address_name. cbn in *.
  f_equal. apply map_id_on. intros r Hr.
  destruct (Z.eqb_spec (a_id r) id) as [E|_]; [|reflexivity].
  now destruct (H r Hr).
Qed.

Lemma update_address_name_twice (n1 n2 : string) (id : Z) (d : DB) :
  update_address_name n2 id (update_address_name n1 id d)
  = update_address_name n2 id d.
Proof.
  unfold update_address_name. cbn. f_equal. rewrite map_map.
  apply map_ext. intros r.
  destruct (a_id r =? id) eqn:E; cbn [a_id set_name]; now rewrite E.
Qed.

(** A run of [UpdateAddressName] whose two round trips are answered. *)
Lemma UpdateAddressName_run (u : User) (id : Z) (name : string) (w : World) :
  next_fault w = None ->
  next_fault (after_call w) = None ->
  UpdateAddressName u id name w =
    (Ret (match find (fun x => a_id x =? id) (addresses (db w)) with
          | Some r => (Some (scan_Address (set_name name r)), None)
          | None => (None, Some sql_ErrNoRows)
          end),
     after_call (with_db (update_address_name name id (db w)) (after_call w))).
Proof.
  intros F1 F2. unfold UpdateAddressName, bind.
  rewrite (db_Exec_ok _ w F1).
  set (w1 := with_db (update_address_name name id (db w)) (after_call w)).
  assert (F : next_fault w1 = None) by exact F2.
  rewrite (db_Get_ok _ w1 F).
  assert (H : hd_error (select_address_by_id id (db w1))
               = option_map (fun r => scan_Address (set_name name r))
                            (find (fun x => a_id x =? id) (addresses (db w)))).
  { rewrite select_address_by_id_head. unfold w1. cbn [db with_db].
    rewrite find_after_update.
    now destruct (find (fun x => a_id x =? id) (addresses (db w))). }
  destruct (select_address_by_id id (db w1)) as [|addr rest];
    destruct (find (fun x => a_id x =? id) (addresses (db w))) as [r|];
    cbn in H; try discriminate; [reflexivity|].
  now injection H as ->.
Qed.

(** The state [UpdateAddressName] ends in, whatever the driver does:
    after a refused update, the initial tables; otherwise the updated
    ones, whether the row is read back or not. *)
Lemma UpdateAddressName_final_db (u : User) (id : Z) (name : string) (w : World) :
  let w' := snd (UpdateAddressName u id name w) in
  logged w' = logged w
  /\ (db w' = db w \/ db w' = update_address_name name id (db w)).
Proof.
  cbn zeta. unfold UpdateAddressName, bind.
  destruct (next_fault w) as [msg|] eqn:F1.
  - rewrite (db_Exec_fault _ w msg F1). cbn. auto.
  - rewrite (db_Exec_ok _ w F1).
    set (w1 := with_db (update_address_name name id (db w)) (after_call w)).
    destruct (db_Get_cases (select_address_by_id id) w1)
      as [(msg & E) | [(_ & E) | (a & rest & _ & E)]]; rewrite E; cbn; auto.
Qed.

(** An id that no row carries: on a connection that answers, the update
    changes nothing and the re-read fails, so the caller gets the raw
    [sql.ErrNoRows] and the tables are the ones it started from. *)
Theorem UpdateAddressName_missing_id (u : User) (id : Z) (name : string) (w : World) :
  next_fault w = None ->
  next_fault (after_call w) = None ->
  (forall row, In row (addresses (db w)) -> a_id row <> id) ->
  exists w',
    UpdateAddressName u id name w = (Ret (None, Some sql_ErrNoRows), w')
    /\ db w' = db w.
Proof.
  intros F1 F2 Habs. eexists. rewrite (UpdateAddressName_run u id name w F1 F2).
  destruct (find (fun x => a_id x =? id) (addresses (db w))) as [r|] eqn:E.
  - apply find_some in E. destruct E as [Hin E]. apply Z.eqb_eq in E.
    now destruct (Habs r Hin).
  - split; [reflexivity|]. cbn [db after_call with_faults with_db].
    now apply update_address_name_absent.
Qed.

Lemma UpdateAddressName_missing_id_witness :
  exists w',
    UpdateAddressName alice 99 "home" sample_world
      = (Ret (None, Some sql_ErrNoRows), w')
    /\ db w' = db sample_world.
Proof.
  apply (UpdateAddressName_missing_id alice 99 "home" sample_world).
  - reflexivity.
  - reflexivity.
  - cbn. intros row [<-|[<-|[]]]; cbn; lia.
Defined.

Lemma renamed_only_at_refl (id : Z) (l : list AddressRow) : renamed_only_at id l l.
Proof.
  unfold renamed_only_at. induction l as [|r l IH]; constructor; [|exact IH].
  split; [|reflexivity]. unfold same_but_name. now destruct r.
Qed.

Lemma renamed_only_at_update (name : string) (id : Z) (l : list AddressRow) :
  renamed_only_at id l
    (map (fun r => if a_id r =? id then set_name name r else r) l).
Proof.
  unfold renamed_only_at. induction l as [|r l IH]; cbn; constructor; [|exact IH].
  destruct (Z.eqb_spec (a_id r) id) as [E|E].
  - split; [|intros H; now destruct H]. unfold same_but_name. now destruct r.
  - split; [|reflexivity]. unfold same_but_name. now destruct r.
Qed.

(** The frame of [UpdateAddressName], whatever the driver does and
    whatever it returns: [users] and [userflexids] are untouched, nothing
    is logged, and the address table keeps its rows in place, each with
    its columns other than the name, the rows that do not carry the id
    being exactly as before. *)
Theorem UpdateAddressName_frame (u : User) (id : Z) (name : string) (w : World) :
  let w' := snd (UpdateAddressName u id name w) in
  users (db w') = users (db w)
  /\ userflexids (db w') = userflexids (db w)
  /\ logged w' = logged w
  /\ renamed_only_at id (addresses (db w)) (addresses (db w')).
Proof.
  cbn zeta. destruct (UpdateAddressName_final_db u id name w) as [Hlog [E|E]];
    rewrite E; repeat split; auto using renamed_only_at_refl.
  unfold update_address_name. cbn [addresses]. apply renamed_only_at_update.
Qed.

(** How [UpdateAddressName] fails: a refused update is returned as it is
    and leaves the tables alone; but when the update went through and the
    re-read is refused, the caller gets an error although the row is
    already renamed in the store. *)
Theorem UpdateAddressName_failures (u : User) (id : Z) (name : string)
        (w : World) (msg : string) :
  (next_fault w = Some msg ->
   UpdateAddressName u id name w
     = (Ret (None, Some (DriverError msg)), after_call w)
   /\ db (after_call w) = db w)
  /\ (next_fault w = None -> next_fault (after_call w) = Some msg ->
      forall r, find (fun x => a_id x =? id) (addresses (db w)) = Some r ->
      exists w',
        UpdateAddressName u id name w = (Ret (None, Some (DriverError msg)), w')
        /\ find (fun x => a_id x =? id) (addresses (db w')) = Some (set_name name r)).
Proof.
  split.
  - intros F. split; [|reflexivity].
    unfold UpdateAddressName, bind. now rewrite (db_Exec_fault _ w msg F).
  - intros F1 F2 r Hr. eexists. unfold UpdateAddressName, bind.
    rewrite (db_Exec_ok _ w F1).
    set (w1 := with_db (update_address_name name id (db w)) (after_call w)).
    assert (F : next_fault w1 = Some msg) by exact F2.
    rewrite (db_Get_fault _ w1 msg F). split; [reflexivity|].
    unfold w1. cbn [db after_call with_faults with_db].
    now rewrite find_after_update, Hr.
Qed.

Lemma UpdateAddressName_failures_witness :
  (UpdateAddressName alice 10 "office" refusing_world
     = (Ret (None, Some (DriverError "connection refused")),
        after_call refusing_world)
   /\ db (after_call refusing_world) = db refusing_world)
  /\ exists w',
       UpdateAddressName alice 10 "office" dropping_world
         = (Ret (None, Some (DriverError "connection reset")), w')
       /\ find (fun x => a_id x =? 10) (addresses (db w'))
          = Some (set_name "office" alice_home).
Proof.
  split.
  - destruct (UpdateAddressName_failures alice 10 "office" refusing_world
                                         "connection refused") as [H _].
    apply H. reflexivity.
  - destruct (UpdateAddressName_failures alice 10 "office" dropping_world
                                         "connection reset") as [_ H].
    apply (H eq_refl eq_refl alice_home). reflexivity.
Defined.

(** On a healthy connection the last rename wins: renaming an address
    and then renaming it again gives the result and the state of the
    second rename alone, whoever the receivers are; in particular a
    rename done twice is the rename done once. *)
Theorem UpdateAddressName_last_rename_wins
        (u1 u2 : User) (id : Z) (n1 n2 : string) (w : World) :
  faults w = [] ->
  UpdateAddressName u2 id n2 (snd (UpdateAddressName u1 id n1 w))
  = UpdateAddressName u2 id n2 w.
Proof.
  intros H.
  assert (F1 : next_fault w = None) by (unfold next_fault; now rewrite H).
  assert (F2 : next_fault (after_call w) = None)
    by (unfold next_fault, after_call; cbn; now rewrite H).
  rewrite (UpdateAddressName_run u1 id n1 w F1 F2). cbn [snd].
  set (w1 := after_call (with_db (update_address_name n1 id (db w)) (after_call w))).
  assert (G1 : next_fault w1 = None)
    by (unfold next_fault, w1, after_call; cbn; now rewrite H).
  assert (G2 : next_fault (after_call w1) = None)
    by (unfold next_fault, w1, after_call; cbn; now rewrite H).
  rewrite (UpdateAddressName_run u2 id n2 w1 G1 G2).
  rewrite (UpdateAddressName_run u2 id n2 w F1 F2).
  unfold w1. cbn [db after_call with_faults with_db environ clock logged faults].
  rewrite update_address_name_twice, find_after_update.
  assert (W : after_call
                (with_db (update_address_name n2 id (db w))
                   (after_call
                      (after_call
                         (with_db (update_address_name n1 id (db w)) (after_call w)))))
              = after_call (with_db (update_address_name n2 id (db w)) (after_call w))).
  { unfold after_call, with_db, with_faults.
    cbn [environ clock logged db faults]. now rewrite H. }
  rewrite W.
  destruct (find (fun x => a_id x =? id) (addresses (db w))) as [r|];
    [|reflexivity].
  cbn [option_map]. now destruct r.
Qed.

Lemma UpdateAddressName_last_rename_wins_witness :
  UpdateAddressName bob 10 "home" (snd (UpdateAddressName alice 10 "office" sample_world))
  = UpdateAddressName bob 10 "home" sample_world.
Proof.
  apply (UpdateAddressName_last_rename_wins alice bob 10 "office" "home" sample_world).
  reflexivity.
Defined.

(** ** [CheckActiveAuthorization]: the three outcomes *)

(** [CheckActiveAuthorization] returns an error exactly when the driver
    fails (that error, unchanged) or the user has no row in the store
    (the raw [sql.ErrNoRows]); the flag is false in both cases.  With a
    row, the flag tells whether its authorization id is non-null. *)
Theorem CheckActiveAuthorization_outcomes (u : User) (w : World) :
  (forall msg, next_fault w = Some msg ->
     CheckActiveAuthorization u w
     = (Ret (false, Some (DriverError msg)), after_call w))
  /\ (next_fault w = None ->
      find (fun r => u_id r =? ID u) (users (db w)) = None ->
      CheckActiveAuthorization u w
      = (Ret (false, Some sql_ErrNoRows), after_call w))
  /\ (next_fault w = None ->
      forall row, find (fun r => u_id r =? ID u) (users (db w)) = Some row ->
      CheckActiveAuthorization u w
      = (Ret (match u_authorizationid row with Some _ => true | None => false end,
              None), after_call w)).
Proof.
  pose proof (select_authorizationid_head (ID u) (db w)) as H.
  repeat split.
  - intros msg F. unfold CheckActiveAuthorization, bind.
    now rewrite (db_Get_fault _ w msg F).
  - intros F Hnone. unfold CheckActiveAuthorization, bind.
    rewrite (db_Get_ok _ w F). rewrite Hnone in H.
    destruct (select_authorizationid (ID u) (db w)); [reflexivity | discriminate].
  - intros F row Hrow. unfold CheckActiveAuthorization, bind.
    rewrite (db_Get_ok _ w F). rewrite Hrow in H.
    destruct (select_authorizationid (ID u) (db w)) as [|a rest]; [discriminate|].
    cbn in H. injection H as ->. now destruct (u_authorizationid row).
Qed.

Lemma CheckActiveAuthorization_outcomes_witness :
  CheckActiveAuthorization alice refusing_world
    = (Ret (false, Some (DriverError "connection refused")), after_call refusing_world)
  /\ CheckActiveAuthorization alice empty_world
     = (Ret (false, Some sql_ErrNoRows), after_call empty_world)
  /\ CheckActiveAuthorization alice sample_world
     = (Ret (true, None), after_call sample_world).
Proof.
  split; [|split].
  - destruct (CheckActiveAuthorization_outcomes alice refusing_world) as (H & _ & _).
    apply H. reflexivity.
  - destruct (CheckActiveAuthorization_outcomes alice empty_world) as (_ & H & _).
    apply H; reflexivity.
  - destruct (CheckActiveAuthorization_outcomes alice sample_world) as (_ & _ & H).
    apply (H eq_refl alice_row). reflexivity.
Defined.

(** ** [GetUser] followed by [IsAuthenticated] *)

Lemma GetUser_scans_row (uid : Z) (fid : string) (fidT : FlexIDType)
      (w w' : World) (u : User) (e : option error) :
  GetUser uid fid fidT w = (Ret (Some u, e), w') ->
  exists row, In row (users (db w)) /\ u = scan_User row.
Proof.
  intros H.
  assert (Hload : exists uid' w0, db w0 = db w
                    /\ GetUser_load uid' w0 = (Ret (Some u, e), w')).
  { destruct (Z.eq_dec uid 0) as [->|Hz].
    - destruct (String.eqb_spec fid "") as [->|Hfid]; [discriminate|].
      rewrite (GetUser_flex fid fidT w Hfid) in H.
      destruct (next_fault w); [discriminate|].
      destruct (select_userid_by_flexid fid fidtPhone (db w)) as [|uid' l];
        [discriminate|].
      exists uid', (after_call w). auto.
    - rewrite (GetUser_nonzero uid fid fidT Hz) in H. exists uid, w. auto. }
  destruct Hload as (uid' & w0 & Hdb & Hl).
  destruct (GetUser_load_cases uid' w0)
    as [(msg & _ & E') | [(_ & _ & E') | (u1 & rest & _ & Hsel & E')]];
    rewrite E' in Hl; try discriminate.
  injection Hl as -> _ _. rewrite Hdb in Hsel.
  destruct (select_user_by_id_head uid' (db w) u rest Hsel) as (row & Hin & _ & ->).
  now exists row.
Qed.

(** A user as [GetUser] returns it carries method 0, so
    [IsAuthenticated] never returns true for it when the required method
    is above 0, whatever the configuration and the clock; and when the
    row it was read from has a null [lastauthenticated], the call panics
    under every configuration that yields a window. *)
Theorem GetUser_then_IsAuthenticated
        (uid : Z) (fid : string) (fidT : FlexIDType) (w w1 : World)
        (u : User) (e : option error) :
  GetUser uid fid fidT w = (Ret (Some u, e), w1) ->
  (forall m w2 w3, 0 < m -> IsAuthenticated u m w2 <> (Ret (true, None), w3))
  /\ exists row,
       In row (users (db w)) /\ ID u = u_id row
       /\ (u_lastauthenticated row = None ->
           forall m w2 t,
             staleness_window (lookup_env AUTH_HOURS (environ w2)) = Some t ->
             IsAuthenticated u m w2
             = (Panic "invalid memory address or nil pointer dereference",
                after_config w2)).
Proof.
  intros H. destruct (GetUser_scans_row _ _ _ _ _ _ _ H) as (row & Hin & ->).
  split.
  - intros m w2 w3 Hm E.
    destruct (staleness_window (lookup_env AUTH_HOURS (environ w2))) as [t|] eqn:S.
    + rewrite (IsAuthenticated_window _ m w2 t S) in E. cbn in E.
      destruct (u_lastauthenticated row); [|discriminate].
      replace (m <=? 0) with false in E by (symmetry; apply Z.leb_gt; lia).
      rewrite andb_false_r in E. discriminate.
    + destruct (IsAuthenticated_bad_config (scan_User row) m w2 S) as (err & E').
      rewrite E' in E. discriminate.
  - exists row. repeat split; [exact Hin|].
    intros Hnull m w2 t S.
    rewrite (IsAuthenticated_window _ m w2 t S). cbn [LastAuthenticated scan_User].
    now rewrite Hnull.
Qed.

Lemma GetUser_then_IsAuthenticated_witness :
  (forall m w2 w3, 0 < m -> IsAuthenticated alice m w2 <> (Ret (true, None), w3))
  /\ exists row,
       In row (users (db sample_world)) /\ ID alice = u_id row
       /\ (u_lastauthenticated row = None ->
           forall m w2 t,
             staleness_window (lookup_env AUTH_HOURS (environ w2)) = Some t ->
             IsAuthenticated alice m w2
             = (Panic "invalid memory address or nil pointer dereference",
                after_config w2)).
Proof.
  apply (GetUser_then_IsAuthenticated 1 "" fidtInvalid sample_world sample_world
                                      alice None).
  reflexivity.
Defined.

(** ** [SaveAddress] *)

Lemma SaveAddress_ok (u : User) (addr : Address) (s : Store) :
  next_fault (world s) = None ->
  SaveAddress u addr s =
    (Ret (addresses_id_seq s + 1, None),
     mkStore (with_db (insert_address
                         (new_address_row (addresses_id_seq s + 1) (ID u) addr)
                         (db (world s)))
                      (after_call (world s)))
             (sessions s) (addresses_id_seq s + 1)).
Proof.
  intros F. unfold SaveAddress, db_insert_address_returning_id, bindS, lift,
              driver_call.
  rewrite F. reflexivity.
Qed.

Lemma SaveAddress_fault (u : User) (addr : Address) (s : Store) (msg : string) :
  next_fault (world s) = Some msg ->
  SaveAddress u addr s =
    (Ret (0, Some (DriverError msg)), with_world (after_call (world s)) s).
Proof.
  intros F. unfold SaveAddress, db_insert_address_returning_id, bindS, lift,
              driver_call.
  rewrite F. reflexivity.
Qed.

Lemma filter_none {A} (p : A -> bool) (l : list A) :
  (forall x, In x l -> p x = false) -> filter p l = [].
Proof.
  induction l as [|x l IH]; cbn; intros H; [reflexivity|].
  rewrite H by now left. apply IH. intros y Hy. apply H. now right.
Qed.

Lemma find_app_none {A} (p : A -> bool) (l l' : list A) :
  (forall x, In x l -> p x = false) -> find p (l ++ l') = find p l'.
Proof.
  induction l as [|x l IH]; cbn; intros H; [reflexivity|].
  rewrite H by now left. apply IH. intros y Hy. apply H. now right.
Qed.

(** What [SaveAddress] does to the store, whatever the driver does: it
    fails with id 0 and the driver's error and inserts nothing, or it
    returns the next number of the sequence and appends one row: owned by
    the receiver, tied to no card, with country "USA" whatever the
    country of the address given.  The rows already there, the other
    tables and the log are untouched. *)
Theorem SaveAddress_outcomes (u : User) (addr : Address) (s : Store) :
  let s' := snd (SaveAddress u addr s) in
  users (db (world s')) = users (db (world s))
  /\ userflexids (db (world s')) = userflexids (db (world s))
  /\ sessions s' = sessions s
  /\ logged (world s') = logged (world s)
  /\ ((exists msg,
         next_fault (world s) = Some msg
         /\ fst (SaveAddress u addr s) = Ret (0, Some (DriverError msg))
         /\ addresses (db (world s')) = addresses (db (world s))
         /\ addresses_id_seq s' = addresses_id_seq s)
      \/ (exists id row,
            next_fault (world s) = None
            /\ fst (SaveAddress u addr s) = Ret (id, None)
            /\ id = addresses_id_seq s + 1 /\ addresses_id_seq s' = id
            /\ addresses (db (world s')) = addresses (db (world s)) ++ [row]
            /\ a_id row = id /\ a_userid row = ID u /\ a_cardid row = 0
            /\ a_country row = "USA"
            /\ scan_Address row = read_back (addr_Name addr) addr
            /\ a_zip5 row = addr_Zip5 addr /\ a_zip4 row = addr_Zip4 addr)).
Proof.
  cbn zeta. destruct (next_fault (world s)) as [msg|] eqn:F.
  - rewrite (SaveAddress_fault u addr s msg F). cbn.
    repeat split; auto. left. exists msg. auto.
  - rewrite (SaveAddress_ok u addr s F). cbn.
    repeat split; auto. right.
    exists (addresses_id_seq s + 1),
           (new_address_row (addresses_id_seq s + 1) (ID u) addr).
    repeat split.
Qed.


Lemma sample_store_ids_issued : address_ids_issued sample_store.
Proof.
  split.
  - cbn. repeat constructor; cbn; intuition lia.
  - cbn. intros row [<-|[<-|[]]]; cbn; lia.
Qed.


(** Save, then look up by label: when the name of the saved address is
    the label the text gives and the receiver had no direct address of
    that name, [GetAddress] finds the saved address: its name, lines,
    city, state and zip as given, the country "USA", and the two parts of
    the zip code empty, since the lookup does not select them. *)
Theorem SaveAddress_then_GetAddress
        (lower : rune -> rune) (u : User) (addr : Address) (text : list rune)
        (s : Store) :
  let name := fold_left switch_label (strings_Fields (strings_ToLower lower text)) "" in
  next_fault (world s) = None ->
  next_fault (after_call (world s)) = None ->
  name <> "" ->
  addr_Name addr = name ->
  (forall row, In row (addresses (db (world s))) -> a_userid row = ID u ->
               a_cardid row = 0 -> a_name row <> name) ->
  exists id s1 s2,
    SaveAddress u addr s = (Ret (id, None), s1)
    /\ lift (GetAddress lower u text) s1
       = (Ret (Some (read_back (addr_Name addr) addr), None), s2).
Proof.
  intros name F1 F2 Hne Hname Hnew.
  rewrite (SaveAddress_ok u addr s F1). eexists; eexists; eexists.
  split; [reflexivity|].
  unfold lift. cbn [world]. unfold GetAddress. fold name.
  replace (Z.of_nat (String.length name) =? 0) with false
    by (destruct name; [contradiction | reflexivity]).
  unfold GetAddress_lookup, bind.
  set (w1 := with_db _ (after_call (world s))).
  assert (F : next_fault w1 = None) by exact F2.
  rewrite (db_Get_ok _ w1 F).
  assert (Hsel : select_address_by_name (ID u) name (db w1)
                 = [read_back (addr_Name addr) addr]).
  { unfold w1, select_address_by_name, insert_address. cbn [db with_db addresses].
    rewrite filter_app, filter_none.
    - cbn [app filter new_address_row a_userid a_name a_cardid].
      rewrite Z.eqb_refl.
      replace (String.eqb (addr_Name addr) name) with true
        by (symmetry; apply String.eqb_eq; exact Hname).
      reflexivity.
    - intros row Hrow.
      destruct (Z.eqb_spec (a_userid row) (ID u)) as [Eu|]; [|reflexivity].
      destruct (String.eqb_spec (a_name row) name) as [En|]; [|reflexivity].
      destruct (Z.eqb_spec (a_cardid row) 0) as [Ec|]; [|reflexivity].
      now destruct (Hnew row Hrow Eu Ec). }
  rewrite Hsel. reflexivity.
Qed.

Lemma SaveAddress_then_GetAddress_witness :
  exists id s1 s2,
    SaveAddress alice alice_office sample_store = (Ret (id, None), s1)
    /\ lift (GetAddress ascii_ToLower alice (runes "ship it to my Office")) s1
       = (Ret (Some (read_back (addr_Name alice_office) alice_office), None), s2).
Proof.
  apply (SaveAddress_then_GetAddress ascii_ToLower alice alice_office
                                     (runes "ship it to my Office") sample_store).
  - reflexivity.
  - reflexivity.
  - discriminate.
  - reflexivity.
  - cbn. intros row [<-|[<-|[]]]; cbn; intros; try discriminate; lia.
Defined.

(** Save, then rename by the number returned: in a store whose numbering
    is sound, [UpdateAddressName] with the id that [SaveAddress] returned
    reaches the row just saved and no other, and reads it back under the
    new name, whoever the receiver of the rename is. *)
Theorem SaveAddress_then_UpdateAddressName
        (u u' : User) (addr : Address) (name : string) (s : Store) :
  address_ids_issued s ->
  next_fault (world s) = None ->
  next_fault (after_call (world s)) = None ->
  next_fault (after_call (after_call (world s))) = None ->
  exists id s1 s2,
    SaveAddress u addr s = (Ret (id, None), s1)
    /\ lift (UpdateAddressName u' id name) s1
       = (Ret (Some (read_back name addr), None), s2).
Proof.
  intros [_ Hle] F1 F2 F3.
  rewrite (SaveAddress_ok u addr s F1). eexists; eexists; eexists.
  split; [reflexivity|].
  unfold lift. cbn [world].
  set (id := addresses_id_seq s + 1).
  set (w1 := with_db _ (after_call (world s))).
  assert (G1 : next_fault w1 = None) by exact F2.
  assert (G2 : next_fault (after_call w1) = None) by exact F3.
  rewrite (UpdateAddressName_run u' id name w1 G1 G2).
  assert (Hfind : find (fun x => a_id x =? id) (addresses (db w1))
                  = Some (new_address_row id (ID u) addr)).
  { unfold w1, insert_address. cbn [db with_db addresses].
    rewrite find_app_none.
    - cbn. now rewrite Z.eqb_refl.
    - intros row Hrow. apply Z.eqb_neq. specialize (Hle row Hrow). unfold id. lia. }
  rewrite Hfind. reflexivity.
Qed.

Lemma SaveAddress_then_UpdateAddressName_witness :
  exists id s1 s2,
    SaveAddress alice alice_office sample_store = (Ret (id, None), s1)
    /\ lift (UpdateAddressName bob id "work") s1
       = (Ret (Some (read_back "work" alice_office), None), s2).
Proof.
  apply (SaveAddress_then_UpdateAddressName alice bob alice_office "work" sample_store).
  - exact sample_store_ids_issued.
  - reflexivity.
  - reflexivity.
  - reflexivity.
Defined.

(** Saving an address for one user never changes what [GetAddress]
    returns to another user: the result is the one the lookup would have
    given had the save only used up its round trip. *)
Theorem SaveAddress_other_user_unaffected
        (lower : rune -> rune) (u u' : User) (addr : Address) (text : list rune)
        (s : Store) :
  ID u' <> ID u ->
  fst (GetAddress lower u' text (world (snd (SaveAddress u addr s))))
  = fst (GetAddress lower u' text (after_call (world s))).
Proof.
  intros Hid. destruct (next_fault (world s)) as [msg|] eqn:F.
  - now rewrite (SaveAddress_fault u addr s msg F).
  - rewrite (SaveAddress_ok u addr s F). cbn [snd world].
    unfold GetAddress.
    set (name := fold_left switch_label
                           (strings_Fields (strings_ToLower lower text)) "").
    destruct (Z.of_nat (String.length name) =? 0); [reflexivity|].
    set (w1 := with_db _ (after_call (world s))).
    assert (Hsel : select_address_by_name (ID u') name (db w1)
                   = select_address_by_name (ID u') name (db (after_call (world s)))).
    { unfold w1, select_address_by_name, insert_address. cbn [db with_db addresses].
      rewrite filter_app. cbn [filter new_address_row a_userid].
      apply Z.eqb_neq in Hid. rewrite Z.eqb_sym in Hid.
      rewrite Hid. cbn [andb]. now rewrite app_nil_r. }
    destruct (GetAddress_lookup_cases (ID u') name w1)
      as [(msg & G & E) | [(G & S1 & E) | (a & rest & G & S1 & E)]];
      rewrite E;
      [ assert (G' : next_fault (after_call (world s)) = Some msg) by exact G
      | assert (G' : next_fault (after_call (world s)) = None) by exact G
      | assert (G' : next_fault (after_call (world s)) = None) by exact G ];
      destruct (GetAddress_lookup_cases (ID u') name (after_call (world s)))
        as [(msg' & G2 & E2) | [(G2 & S2 & E2) | (a2 & rest2 & G2 & S2 & E2)]];
      rewrite E2; cbn [fst]; try congruence.
    all: rewrite Hsel in S1; congruence.
Qed.

Lemma SaveAddress_other_user_unaffected_witness :
  fst (GetAddress ascii_ToLower bob (runes "the office")
                  (world (snd (SaveAddress alice alice_office sample_store))))
  = fst (GetAddress ascii_ToLower bob (runes "the office")
                    (after_call (world sample_store))).
Proof.
  apply (SaveAddress_other_user_unaffected ascii_ToLower alice bob alice_office
                                           (runes "the office") sample_store).
  cbn. lia.
Defined.

(** ** [DeleteSessions] *)

Lemma DeleteSessions_ok (u : User) (s : Store) :
  next_fault (world s) = None ->
  DeleteSessions u s
  = (Ret None, delete_sessions (ID u) (with_world (after_call (world s)) s)).
Proof.
  intros F. unfold DeleteSessions, dbS_Exec, bindS, lift, driver_call.
  rewrite F. reflexivity.
Qed.

Lemma DeleteSessions_fault (u : User) (s : Store) (msg : string) :
  next_fault (world s) = Some msg ->
  DeleteSessions u s
  = (Ret (Some (DriverError msg)), with_world (after_call (world s)) s).
Proof.
  intros F. unfold DeleteSessions, dbS_Exec, bindS, lift, driver_call.
  rewrite F. reflexivity.
Qed.

Lemma filter_other_user (uid uid' : Z) (l : list SessionRow) :
  uid' <> uid ->
  filter (fun r => s_userid r =? uid')
         (filter (fun r => negb (s_userid r =? uid)) l)
  = filter (fun r => s_userid r =? uid') l.
Proof.
  intros H. induction l as [|r l IH]; cbn; [reflexivity|].
  destruct (Z.eqb_spec (s_userid r) uid) as [E|E]; cbn.
  - destruct (Z.eqb_spec (s_userid r) uid') as [E'|_]; [congruence | exact IH].
  - destruct (s_userid r =? uid'); [now rewrite IH | exact IH].
Qed.

(** What [DeleteSessions] does, whatever the driver does.  A failure of
    the driver is returned as it is and no session is deleted.
    Otherwise the call returns nil, no session of the receiver is left,
    and the sessions of every other user are the same, in the same
    order.  The other tables, the sequence and the log are untouched. *)
Theorem DeleteSessions_outcomes (u : User) (s : Store) :
  let s' := snd (DeleteSessions u s) in
  db (world s') = db (world s)
  /\ addresses_id_seq s' = addresses_id_seq s
  /\ logged (world s') = logged (world s)
  /\ ((exists msg,
         next_fault (world s) = Some msg
         /\ fst (DeleteSessions u s) = Ret (Some (DriverError msg))
         /\ sessions s' = sessions s)
      \/ (next_fault (world s) = None
          /\ fst (DeleteSessions u s) = Ret None
          /\ (forall r, In r (sessions s') <-> In r (sessions s) /\ s_userid r <> ID u)
          /\ (forall uid', uid' <> ID u ->
                filter (fun r => s_userid r =? uid') (sessions s')
                = filter (fun r => s_userid r =? uid') (sessions s)))).
Proof.
  cbn zeta. destruct (next_fault (world s)) as [msg|] eqn:F.
  - rewrite (DeleteSessions_fault u s msg F). cbn.
    repeat split; auto. left. exists msg. auto.
  - rewrite (DeleteSessions_ok u s F). cbn.
    repeat split; auto. right. repeat split; auto.
    + apply filter_In in H. tauto.
    + apply filter_In in H. destruct H as [_ H].
      apply negb_true_iff in H. now apply Z.eqb_neq in H.
    + intros [Hin Hne]. apply filter_In. split; [exact Hin|].
      apply negb_true_iff. now apply Z.eqb_neq.
    + intros uid' Hne. now apply filter_other_user.
Qed.

(** Nothing to delete is not an error: when the receiver has no session,
    an answered [DeleteSessions] returns nil and leaves the sessions as
    they are; so on a healthy connection a second [DeleteSessions]
    returns nil and changes nothing that the first one left. *)
Theorem DeleteSessions_nothing_to_delete (u : User) (s : Store) :
  (next_fault (world s) = None ->
   (forall r, In r (sessions s) -> s_userid r <> ID u) ->
   fst (DeleteSessions u s) = Ret None
   /\ sessions (snd (DeleteSessions u s)) = sessions s)
  /\ (faults (world s) = [] ->
      DeleteSessions u (snd (DeleteSessions u s))
      = (Ret None, snd (DeleteSessions u s))).
Proof.
  assert (Hfix : forall l : list SessionRow,
             (forall r, In r l -> s_userid r <> ID u) ->
             filter (fun r => negb (s_userid r =? ID u)) l = l).
  { induction l as [|r l IH]; cbn; intros H; [reflexivity|].
    destruct (Z.eqb_spec (s_userid r) (ID u)) as [E|_]; cbn.
    - now destruct (H r (or_introl eq_refl)).
    - f_equal. apply IH. intros y Hy. apply H. now right. }
  split.
  - intros F Hnone. rewrite (DeleteSessions_ok u s F). cbn.
    split; [reflexivity | now apply Hfix].
  - intros H.
    assert (F : next_fault (world s) = None) by (unfold next_fault; now rewrite H).
    rewrite (DeleteSessions_ok u s F). cbn [snd].
    set (s1 := delete_sessions (ID u) (with_world (after_call (world s)) s)).
    assert (F' : next_fault (world s1) = None)
      by (unfold next_fault; cbn; now rewrite H).
    rewrite (DeleteSessions_ok u s1 F'). f_equal.
    unfold s1, delete_sessions, with_world, after_call, with_faults.
    cbn [world sessions addresses_id_seq environ clock logged db faults].
    rewrite H. cbn [tl]. f_equal.
    apply Hfix. intros r Hr. apply filter_In in Hr. destruct Hr as [_ Hr].
    apply negb_true_iff in Hr. now apply Z.eqb_neq in Hr.
Qed.

Lemma DeleteSessions_nothing_to_delete_witness :
  (fst (DeleteSessions (scan_User (mkUserRow 7 "Eve" "eve@example.com" None "" None))
                       sample_store) = Ret None
   /\ sessions (snd (DeleteSessions
                       (scan_User (mkUserRow 7 "Eve" "eve@example.com" None "" None))
                       sample_store))
      = sessions sample_store)
  /\ DeleteSessions alice (snd (DeleteSessions alice sample_store))
     = (Ret None, snd (DeleteSessions alice sample_store)).
Proof.
  split.
  - destruct (DeleteSessions_nothing_to_delete
                (scan_User (mkUserRow 7 "Eve" "eve@example.com" None "" None))
                sample_store) as [H _].
    apply H; [reflexivity|].
    cbn. intros r [<-|[<-|[<-|[]]]]; cbn; lia.
  - destruct (DeleteSessions_nothing_to_delete alice sample_store) as [_ H].
    apply H. reflexivity.
Defined.

Example DeleteSessions_sample :
  DeleteSessions alice sample_store
  = (Ret None, mkStore sample_world [mkSessionRow 2 "s2"] 11)
  /\ DeleteSessions alice refusing_store
     = (Ret (Some (DriverError "connection refused")),
        with_world sample_world sample_store).
Proof. split; reflexivity. Qed.

Example SaveAddress_sample :
  fst (SaveAddress alice alice_office sample_store) = Ret (12, None)
  /\ fst (SaveAddress alice alice_office refusing_store)
     = Ret (0, Some (DriverError "connection refused")).
Proof. split; reflexivity. Qed.

Lemma DeleteSessions_outcomes_witness :
  let s' := snd (DeleteSessions alice sample_store) in
  db (world s') = db (world sample_store)
  /\ addresses_id_seq s' = addresses_id_seq sample_store
  /\ logged (world s') = logged (world sample_store)
  /\ ((exists msg,
         next_fault (world sample_store) = Some msg
         /\ fst (DeleteSessions alice sample_store) = Ret (Some (DriverError msg))
         /\ sessions s' = sessions sample_store)
      \/ (next_fault (world sample_store) = None
          /\ fst (DeleteSessions alice sample_store) = Ret None
          /\ (forall r, In r (sessions s')
                        <-> In r (sessions sample_store) /\ s_userid r <> ID alice)
          /\ (forall uid', uid' <> ID alice ->
                filter (fun r => s_userid r =? uid') (sessions s')
                = filter (fun r => s_userid r =? uid') (sessions sample_store)))).
Proof.
  exact (DeleteSessions_outcomes alice sample_store).
Defined.

Lemma GetUser_flex_absent_mapping_witness :
  GetUser 0 "nobody@example.com" fidtEmail sample_world
  = (Ret (None, Some ErrMissingUser), after_call sample_world).
Proof.
  apply (GetUser_flex_absent_mapping "nobody@example.com" fidtEmail sample_world).
  - discriminate.
  - reflexivity.
  - cbn. intros r [<-|[<-|[<-|[<-|[]]]]]; cbn; intros; discriminate.
Defined.
